(** * Yield projection and trade analytics kernel of the Solana agent toolkit

    A shallow embedding of
    - the trade journal ([addTrade], [calculateAnalytics]),
    - the JLP position simulator ([calculateCompoundInterest],
      [simulatePricePath], [runMonteCarlo]),
    - the position tracker ([showPortfolio]),
    followed by the properties of these functions.

    Number model.  A JavaScript number is idealised as an exact rational
    ([Q]): rounding, NaN and the infinities of IEEE-754 are outside the model,
    and a division by zero yields 0 as in [QArith].  Equalities between
    computed numbers are stated with [==] ([Qeq]) unless both sides are built
    by the very same sequence of operations, in which case Leibniz equality
    is used. *)

From Stdlib Require Import QArith Qabs Qround Qminmax Qpower Lqa ZArith Lia.
From Stdlib Require Import List Sorted Permutation.
From stdpp Require Import base strings list pretty gmap.

Local Open Scope Q_scope.

(** ** JavaScript value conventions *)

(** [x === y] on strings. *)
Definition strict_eq (a b : string) : bool := String.eqb a b.

(** Truthiness of an optional number: [undefined], [null] and [0] are falsy. *)
Definition truthy (x : option Q) : bool :=
  match x with
  | Some q => negb (Qeq_bool q 0)
  | None => false
  end.

(** Truthiness of an optional string: [undefined] and the empty string are
    falsy. *)
Definition truthy_str (x : option string) : bool :=
  match x with
  | Some EmptyString => false
  | Some _ => true
  | None => false
  end.

(** [a < b] on numbers. *)
Definition Qltb (a b : Q) : bool :=
  match a ?= b with
  | Lt => true
  | _ => false
  end.

(** [Math.abs], [Math.max]. *)
Definition Math_abs (x : Q) : Q := Qabs x.
Definition Math_max (a b : Q) : Q := Qmax a b.

(** [arr.reduce((sum, x) => sum + f(x), 0)]. *)
Definition reduce_sum {A : Type} (f : A -> Q) (arr : list A) : Q :=
  fold_left (fun sum x => sum + f x) arr 0.

(** [arr.length] as a number. *)
Definition len {A : Type} (arr : list A) : Q := inject_Z (Z.of_nat (length arr)).

(** [arr[i]] for an integer-valued index: [undefined] ([None]) out of range. *)
Definition array_get {A : Type} (arr : list A) (i : Z) : option A :=
  if (i <? 0)%Z then None else arr !! Z.to_nat i.

(** [arr.sort(cmp)] for a comparator that orders by a key: the sort of the
    language is stable, so the result is the one of a stable insertion sort.
    [le x y] stands for [cmp(x, y) <= 0]. *)
Section Sort.
Context {A : Type} (le : A -> A -> bool).

Fixpoint sort_insert (x : A) (l : list A) : list A :=
  match l with
  | [] => [x]
  | y :: l' => if le x y then x :: y :: l' else y :: sort_insert x l'
  end.

Fixpoint array_sort (l : list A) : list A :=
  match l with
  | [] => []
  | x :: l' => sort_insert x (array_sort l')
  end.
End Sort.

(** ** Trade journal *)

(** The argument of [addTrade].  Timestamps are kept as the number of
    milliseconds [new Date(t.timestamp)] denotes.  [in_id] and [in_timestamp]
    are [None] when the object has no such key. *)
Record TradeInput := mkTradeInput {
  in_id : option string;
  in_timestamp : option Z;
  in_symbol : string;
  in_side : string;
  in_entryPrice : option Q;
  in_exitPrice : option Q;
  in_size : Q;
  in_fees : option Q;
  in_status : string;
  in_tags : option (list string);
  in_notes : string
}.

Record Trade := mkTrade {
  t_id : string;
  t_timestamp : Z;
  t_symbol : string;
  t_side : string;
  t_entryPrice : option Q;
  t_exitPrice : option Q;
  t_size : Q;
  t_fees : option Q;
  t_status : string;
  t_tags : option (list string);
  t_notes : string;
  t_pnl : option Q          (* [null] is [None] *)
}.

Record Journal := mkJournal {
  trades : list Trade;
  createdAt : Z;
  lastUpdated : Z
}.

(** The clock values one call of [addTrade] observes: [Date.now()] for the
    id, [new Date()] for the timestamp, for a journal created on the fly and
    for [saveJournal]. *)
Record Clock := mkClock {
  Date_now : Z;
  new_Date_timestamp : Z;
  new_Date_created : Z;
  new_Date_saved : Z
}.

(** The journal file: [None] when it is missing or unreadable. *)
Definition loadJournal (c : Clock) (file : option Journal) : Journal :=
  match file with
  | Some j => j
  | None => {| trades := []; createdAt := new_Date_created c;
               lastUpdated := new_Date_created c |}
  end.

Definition saveJournal (c : Clock) (journal : Journal) : option Journal :=
  Some {| trades := trades journal; createdAt := createdAt journal;
          lastUpdated := new_Date_saved c |}.

(** [(trade.side === 'long' ? 1 : -1)]. *)
Definition side_sign (side : string) : Q :=
  if strict_eq side "long" then 1 else -1.

(** [(side === 'long' ? 1 : -1) * (exitPrice - entryPrice) * size]. *)
Definition pnl_formula (side : string) (exitPrice entryPrice size : Q) : Q :=
  side_sign side * (exitPrice - entryPrice) * size.

Definition computed_pnl (trade : TradeInput) : option Q :=
  if truthy (in_exitPrice trade) && truthy (in_entryPrice trade) then
    match in_exitPrice trade, in_entryPrice trade with
    | Some ex, Some en => Some (pnl_formula (in_side trade) ex en (in_size trade))
    | _, _ => None
    end
  else None.

(** [addTrade(trade)]: returns the stored trade and the journal file it
    leaves behind.  The input is spread after the generated [id] and
    [timestamp], so its own [id] or [timestamp] replaces them, and before
    [pnl], which is always the computed one. *)
Definition addTrade (c : Clock) (trade : TradeInput) (file : option Journal)
  : Trade * option Journal :=
  let journal := loadJournal c file in
  let newTrade :=
    {| t_id := default ("trade-" +:+ pretty (Date_now c)) (in_id trade);
       t_timestamp := default (new_Date_timestamp c) (in_timestamp trade);
       t_symbol := in_symbol trade;
       t_side := in_side trade;
       t_entryPrice := in_entryPrice trade;
       t_exitPrice := in_exitPrice trade;
       t_size := in_size trade;
       t_fees := in_fees trade;
       t_status := in_status trade;
       t_tags := in_tags trade;
       t_notes := in_notes trade;
       t_pnl := computed_pnl trade |} in
  let journal' := {| trades := trades journal ++ [newTrade];
                     createdAt := createdAt journal;
                     lastUpdated := lastUpdated journal |} in
  (newTrade, saveJournal c journal').

(** *** Analytics *)

(** [filters]: an absent key is [None]; dates are the milliseconds
    [new Date(filters.startDate)] denotes. *)
Record Filters := mkFilters {
  f_symbol : option string;
  f_startDate : option Z;
  f_endDate : option Z;
  f_side : option string;
  f_tags : option (list string)
}.

(** [filters = {}]. *)
Definition no_filters : Filters :=
  {| f_symbol := None; f_startDate := None; f_endDate := None;
     f_side := None; f_tags := None |}.

Record EquityPoint := mkEquityPoint {
  ep_date : Z;
  ep_equity : Q;
  ep_drawdown : Q;
  ep_drawdownPercent : Q
}.

Record Summary := mkSummary {
  totalTrades : Q;
  closedTradesCount : Q;
  openTrades : Q;
  winRate : Q;
  totalPnL : Q;
  avgWin : Q;
  avgLoss : Q;
  profitFactor : Q;
  maxDrawdown : Q;
  maxDrawdownPercent : Q;
  currentEquity : Q;
  peakEquity : Q
}.

Record Bias := mkBias {
  longCount : Q;
  shortCount : Q;
  longPercent : Q;
  shortPercent : Q;
  longPnL : Q;
  shortPnL : Q
}.

Record Fees := mkFees {
  totalFees : Q;
  avgFeePerTrade : Q;
  feePercentOfPnL : Q
}.

Record Analytics := mkAnalytics {
  summary : Summary;
  bias : Bias;
  fees : Fees;
  equityCurve : list EquityPoint;
  a_trades : list Trade
}.

(** [t.pnl] used as a number: [null] converts to 0. *)
Definition pnl_num (t : Trade) : Q := default 0 (t_pnl t).

(** [t.fees || 0]. *)
Definition fees_num (t : Trade) : Q :=
  if truthy (t_fees t) then default 0 (t_fees t) else 0.

(** [t.tags?.includes(tag)]. *)
Definition has_tag (t : Trade) (tag : string) : bool :=
  match t_tags t with
  | Some tags => existsb (strict_eq tag) tags
  | None => false
  end.

Definition apply_filters (trades : list Trade) (filters : Filters) : list Trade :=
  let filteredTrades := trades in
  let filteredTrades :=
    if truthy_str (f_symbol filters) then
      List.filter (fun t => strict_eq (t_symbol t) (default "" (f_symbol filters))) filteredTrades
    else filteredTrades in
  let filteredTrades :=
    match f_startDate filters with
    | Some d => List.filter (fun t => (d <=? t_timestamp t)%Z) filteredTrades
    | None => filteredTrades
    end in
  let filteredTrades :=
    match f_endDate filters with
    | Some d => List.filter (fun t => (t_timestamp t <=? d)%Z) filteredTrades
    | None => filteredTrades
    end in
  let filteredTrades :=
    if truthy_str (f_side filters) then
      List.filter (fun t => strict_eq (t_side t) (default "" (f_side filters))) filteredTrades
    else filteredTrades in
  match f_tags filters with
  | Some (tag :: tags) =>
      List.filter (fun t => existsb (has_tag t) (tag :: tags)) filteredTrades
  | _ => filteredTrades
  end.

(** [t.status === 'closed' && t.pnl !== null]. *)
Definition is_closed (t : Trade) : bool :=
  strict_eq (t_status t) "closed" &&
  match t_pnl t with Some _ => true | None => false end.

Definition is_winning (t : Trade) : bool := Qltb 0 (pnl_num t).
Definition is_losing (t : Trade) : bool := Qltb (pnl_num t) 0.

(** [new Date(a.timestamp) - new Date(b.timestamp) <= 0]. *)
Definition by_timestamp (a b : Trade) : bool := (t_timestamp a <=? t_timestamp b)%Z.

(** The variables of the replay loop. *)
Record Replay := mkReplay {
  r_equity : Q;
  r_peakEquity : Q;
  r_maxDrawdown : Q;
  r_maxDrawdownPercent : Q;
  r_equityCurve : list EquityPoint
}.

Definition replay_init : Replay :=
  {| r_equity := 0; r_peakEquity := 0; r_maxDrawdown := 0;
     r_maxDrawdownPercent := 0; r_equityCurve := [] |}.

(** One iteration of the [for (const trade of ...)] loop. *)
Definition replay_step (s : Replay) (trade : Trade) : Replay :=
  let equity := r_equity s + pnl_num trade in
  let peakEquity := Math_max (r_peakEquity s) equity in
  let drawdown := peakEquity - equity in
  let drawdownPercent :=
    if Qltb 0 peakEquity then (drawdown / peakEquity) * 100 else 0 in
  {| r_equity := equity;
     r_peakEquity := peakEquity;
     r_maxDrawdown := Math_max (r_maxDrawdown s) drawdown;
     r_maxDrawdownPercent := Math_max (r_maxDrawdownPercent s) drawdownPercent;
     r_equityCurve :=
       r_equityCurve s ++
       [{| ep_date := t_timestamp trade; ep_equity := equity;
           ep_drawdown := drawdown; ep_drawdownPercent := drawdownPercent |}] |}.

Definition replay (sorted : list Trade) : Replay :=
  fold_left replay_step sorted replay_init.

(** [calculateAnalytics(trades, filters)].  [closedTrades.sort(...)] sorts the
    array in place: every later use of [closedTrades] reads the sorted array,
    while [winningTrades] and [losingTrades] were taken before the sort. *)
Definition calculateAnalytics (trades : list Trade) (filters : Filters) : Analytics :=
  let filteredTrades := apply_filters trades filters in
  let closedTrades := List.filter is_closed filteredTrades in
  let winningTrades := List.filter is_winning closedTrades in
  let losingTrades := List.filter is_losing closedTrades in
  let closedTrades := array_sort by_timestamp closedTrades in
  let r := replay closedTrades in
  let equity := r_equity r in
  let longTrades := List.filter (fun t => strict_eq (t_side t) "long") closedTrades in
  let shortTrades := List.filter (fun t => strict_eq (t_side t) "short") closedTrades in
  let totalTrades_ls := len longTrades + len shortTrades in
  let totalFees := reduce_sum fees_num closedTrades in
  let avgFeePerTrade :=
    if Qltb 0 (len closedTrades) then totalFees / len closedTrades else 0 in
  {| summary :=
       {| totalTrades := len filteredTrades;
          closedTradesCount := len closedTrades;
          openTrades :=
            len (List.filter (fun t => strict_eq (t_status t) "open") filteredTrades);
          winRate :=
            if Qltb 0 (len closedTrades)
            then (len winningTrades / len closedTrades) * 100 else 0;
          totalPnL := reduce_sum pnl_num closedTrades;
          avgWin :=
            if Qltb 0 (len winningTrades)
            then reduce_sum pnl_num winningTrades / len winningTrades else 0;
          avgLoss :=
            if Qltb 0 (len losingTrades)
            then reduce_sum pnl_num losingTrades / len losingTrades else 0;
          profitFactor :=
            if Qltb 0 (len losingTrades) &&
               Qltb 0 (Math_abs (reduce_sum pnl_num losingTrades))
            then reduce_sum pnl_num winningTrades /
                 Math_abs (reduce_sum pnl_num losingTrades)
            else 0;
          maxDrawdown := r_maxDrawdown r;
          maxDrawdownPercent := r_maxDrawdownPercent r;
          currentEquity := equity;
          peakEquity := r_peakEquity r |};
     bias :=
       {| longCount := len longTrades;
          shortCount := len shortTrades;
          longPercent :=
            if Qltb 0 totalTrades_ls then (len longTrades / totalTrades_ls) * 100 else 0;
          shortPercent :=
            if Qltb 0 totalTrades_ls then (len shortTrades / totalTrades_ls) * 100 else 0;
          longPnL := reduce_sum pnl_num longTrades;
          shortPnL := reduce_sum pnl_num shortTrades |};
     fees :=
       {| totalFees := totalFees;
          avgFeePerTrade := avgFeePerTrade;
          feePercentOfPnL :=
            if Qeq_bool equity 0 then 0 else (totalFees / Math_abs equity) * 100 |};
     equityCurve := r_equityCurve r;
     a_trades := filteredTrades |}.

(** ** JLP position simulator *)

Record Scenario := mkScenario {
  drift : Q;
  volatility : Q
}.

Definition PRICE_SCENARIOS : gmap string Scenario :=
  {[ "stable" := {| drift := 0; volatility := 0.02 |};
     "bullish" := {| drift := 0.15; volatility := 0.10 |};
     "bearish" := {| drift := -0.15; volatility := 0.10 |};
     "volatile" := {| drift := 0; volatility := 0.15 |} ]}.

Record Trial := mkTrial {
  totalValue : Q;
  yieldValue : Q;
  priceReturn : Q;
  roi : Q
}.

(** The object [runMonteCarlo] returns: a field is [None] when the array
    access behind it is out of range ([undefined]). *)
Record MonteCarlo := mkMonteCarlo {
  worst : option Trial;
  p25 : option Trial;
  median : option Trial;
  p75 : option Trial;
  best : option Trial
}.

(** [a.totalValue - b.totalValue <= 0]. *)
Definition by_totalValue (a b : Trial) : bool := Qle_bool (totalValue a) (totalValue b).

Section Simulator.
(** The numeric built-ins the simulator calls.  [Math_random n] is the
    value of the [n]-th call of [Math.random()]; the functions below thread
    the number of calls made so far. *)
Variable Math_pow : Q -> Q -> Q.
Variable Math_sqrt : Q -> Q.
Variable Math_random : nat -> Q.

Definition calculateCompoundInterest
    (principal apy days compoundFrequency : Q) : Q :=
  let rate := apy / 100 in
  let periods := days / (365 / compoundFrequency) in
  principal * Math_pow (1 + rate / compoundFrequency) periods.

(** The body of [for (let i = 1; i <= days; i++)], run [steps] times:
    the prices pushed and the number of random draws made. *)
Fixpoint price_steps (dailyDrift dailyVol : Q) (steps : nat) (price : Q) (calls : nat)
  : list Q * nat :=
  match steps with
  | O => ([], calls)
  | S steps' =>
      let randomShock := (Math_random calls - 0.5) * 2 * dailyVol in
      let price := price * (1 + dailyDrift + randomShock) in
      let '(prices, calls') :=
        price_steps dailyDrift dailyVol steps' price (S calls) in
      (price :: prices, calls')
  end.

(** [simulatePricePath(startPrice, days, scenario)]: [None] is the
    [TypeError] of destructuring an unknown scenario.  [days] is an
    integer; the loop does not run when it is negative. *)
Definition simulatePricePath (startPrice : Q) (days : Z) (scenario : string)
    (calls : nat) : option (list Q * nat) :=
  match PRICE_SCENARIOS !! scenario with
  | None => None
  | Some sc =>
      let dailyDrift := drift sc / 365 in
      let dailyVol := volatility sc / Math_sqrt 365 in
      let price := startPrice in
      let '(prices, calls') :=
        price_steps dailyDrift dailyVol (Z.to_nat days) price calls in
      Some (price :: prices, calls')
  end.

(** One iteration of the trial loop of [runMonteCarlo]. *)
Definition run_trial (principal apy : Q) (days : Z) (calls : nat)
  : option (Trial * nat) :=
  match simulatePricePath 1.0 days "stable" calls with
  | None => None
  | Some (pricePath, calls') =>
      let endPrice := nth (length pricePath - 1) pricePath 0 in
      let yieldValue :=
        calculateCompoundInterest principal apy (inject_Z days) 365 - principal in
      let priceReturn := principal * (endPrice - 1) in
      let totalValue := principal + yieldValue + priceReturn in
      Some ({| totalValue := totalValue;
               yieldValue := yieldValue;
               priceReturn := priceReturn;
               roi := ((totalValue - principal) / principal) * 100 |}, calls')
  end.

(** [for (let i = 0; i < iterations; i++)], run [n] times. *)
Fixpoint run_trials (principal apy : Q) (days : Z) (n : nat) (calls : nat)
  : option (list Trial * nat) :=
  match n with
  | O => Some ([], calls)
  | S n' =>
      match run_trial principal apy days calls with
      | None => None
      | Some (t, calls') =>
          match run_trials principal apy days n' calls' with
          | None => None
          | Some (results, calls'') => Some (t :: results, calls'')
          end
      end
  end.

(** [Math.floor(iterations * rank)]. *)
Definition rank_index (iterations : Z) (rank : Q) : Z :=
  Qfloor (inject_Z iterations * rank).

(** [runMonteCarlo(principal, apy, days, iterations)] for an integer
    [iterations]; [None] would be an exception. *)
Definition runMonteCarlo (principal apy : Q) (days iterations : Z) (calls : nat)
  : option (MonteCarlo * nat) :=
  match run_trials principal apy days (Z.to_nat iterations) calls with
  | None => None
  | Some (results, calls') =>
      let results := array_sort by_totalValue results in
      Some ({| worst := array_get results (rank_index iterations 0.05);
               p25 := array_get results (rank_index iterations 0.25);
               median := array_get results (rank_index iterations 0.5);
               p75 := array_get results (rank_index iterations 0.75);
               best := array_get results (rank_index iterations 0.95) |}, calls')
  end.
End Simulator.

(** ** Position tracker *)

Record Position := mkPosition {
  p_name : string;
  p_token : string;
  p_type : string;
  p_balance : Q;
  p_price : Q;
  p_value : Q;
  p_apy : Q;
  p_notes : string
}.

(** What [showPortfolio] prints after the table: nothing but a hint when no
    position is tracked, else the totals and, when it is printed, the blended
    APY. *)
Inductive PortfolioReport :=
| NoPositions
| Totals (totalValue totalDailyYield : Q) (blendedApy : option Q).

(** The accumulators of the [entries.forEach] loop. *)
Definition portfolio_step (acc : Q * Q) (entry : string * Position) : Q * Q :=
  let '(totalValue, totalDailyYield) := acc in
  let pos := snd entry in
  let dailyYield := p_value pos * (p_apy pos / 100) / 365 in
  (totalValue + p_value pos, totalDailyYield + dailyYield).

(** [showPortfolio()] on the entries [Object.entries(loadPositions())]. *)
Definition showPortfolio (entries : list (string * Position)) : PortfolioReport :=
  match entries with
  | [] => NoPositions
  | _ =>
      let '(totalValue, totalDailyYield) := fold_left portfolio_step entries (0, 0) in
      let blendedApy :=
        if Qltb 0 totalValue
        then Some ((totalDailyYield * 365 / totalValue) * 100)
        else None in
      Totals totalValue totalDailyYield blendedApy
  end.

(** ** Concrete inputs *)

(** The trade the command [add] records. *)
Definition exampleTrade : TradeInput :=
  {| in_id := None; in_timestamp := None; in_symbol := "SOL-PERP"; in_side := "long";
     in_entryPrice := Some 235.50; in_exitPrice := Some 240.00;
     in_size := 10; in_fees := Some 2.35; in_status := "closed";
     in_tags := Some ["breakout"; "momentum"];
     in_notes := "Entered on breakout above resistance" |}.

(** A position that is still open but already carries both prices. *)
Definition openWithExit : TradeInput :=
  {| in_id := None; in_timestamp := None; in_symbol := "SOL-PERP"; in_side := "long";
     in_entryPrice := Some 235.50; in_exitPrice := Some 240.00;
     in_size := 10; in_fees := Some 2.35; in_status := "open";
     in_tags := None; in_notes := "" |}.

(** A trade marked closed whose exit price was not given. *)
Definition closedNoExit : TradeInput :=
  {| in_id := None; in_timestamp := None; in_symbol := "SOL-PERP"; in_side := "long";
     in_entryPrice := Some 235.50; in_exitPrice := None;
     in_size := 10; in_fees := None; in_status := "closed";
     in_tags := None; in_notes := "" |}.

(** The trade of the command [add] carrying an id of its own. *)
Definition tradeWithId (id : string) : TradeInput :=
  {| in_id := Some id; in_timestamp := None; in_symbol := "SOL-PERP";
     in_side := "long";
     in_entryPrice := Some 235.50; in_exitPrice := Some 240.00;
     in_size := 10; in_fees := Some 2.35; in_status := "closed";
     in_tags := Some ["breakout"; "momentum"];
     in_notes := "Entered on breakout above resistance" |}.

(** A clock on which every reading of one call falls in millisecond [ms]. *)
Definition clock_at (ms : Z) : Clock :=
  {| Date_now := ms; new_Date_timestamp := ms; new_Date_created := ms;
     new_Date_saved := ms |}.

Definition closed_trade (side : string) (entry exit : Q) : TradeInput :=
  {| in_id := None; in_timestamp := None; in_symbol := "SOL-PERP"; in_side := side;
     in_entryPrice := Some entry; in_exitPrice := Some exit;
     in_size := 10; in_fees := None; in_status := "closed";
     in_tags := None; in_notes := "" |}.

(** Three closed trades with pnl +100, -50 and +30, recorded one second
    apart. *)
Definition trade_plus100 : Trade :=
  fst (addTrade (clock_at 1700000001000) (closed_trade "long" 100 110) None).
Definition trade_minus50 : Trade :=
  fst (addTrade (clock_at 1700000002000) (closed_trade "long" 100 95) None).
Definition trade_plus30 : Trade :=
  fst (addTrade (clock_at 1700000003000) (closed_trade "short" 100 97) None).

(** The journal after the three calls of [addTrade], in this order. *)
Definition three_trades_journal : option Journal :=
  let f1 := snd (addTrade (clock_at 1700000001000) (closed_trade "long" 100 110) None) in
  let f2 := snd (addTrade (clock_at 1700000002000) (closed_trade "long" 100 95) f1) in
  snd (addTrade (clock_at 1700000003000) (closed_trade "short" 100 97) f2).

Definition two_positions : list (string * Position) :=
  [ ("a", {| p_name := "a"; p_token := "JLP"; p_type := "lp"; p_balance := 100;
             p_price := 1; p_value := 100; p_apy := 10; p_notes := "" |});
    ("b", {| p_name := "b"; p_token := "SOL"; p_type := "stake"; p_balance := 3;
             p_price := 100; p_value := 300; p_apy := 20; p_notes := "" |}) ].

(** Rational stand-ins for the numeric built-ins, used to run the simulator:
    powers with the exponent rounded down to an integer, square roots to six
    decimals, and a linear congruential sequence in [0, 1). *)
Definition pow_model (x y : Q) : Q := Qpower x (Qfloor y).

Definition sqrt_model (x : Q) : Q :=
  Qmake (Z.sqrt (Qnum x * 1000000000000 / Zpos (Qden x))) 1000000.

Definition random_model (n : nat) : Q :=
  Qmake ((1103515245 * Z.of_nat n + 12345) mod 2147483648) 2147483648.

(** ** Specification-level notions *)

(** Two successive calls of [addTrade] store trades with different ids. *)
Definition appendTrade_ids_distinct
    (c1 c2 : Clock) (tr1 tr2 : TradeInput) (file : option Journal) : Prop :=
  let first := addTrade c1 tr1 file in
  let second := addTrade c2 tr2 (snd first) in
  t_id (fst first) <> t_id (fst second).

(** A stored trade has a pnl exactly when it is closed. *)
Definition pnl_iff_closed (t : Trade) : Prop :=
  is_Some (t_pnl t) <-> t_status t = "closed".

(** The closed trades [calculateAnalytics] works on: status closed and a
    defined pnl, among the trades the filters keep. *)
Definition closed_set (trades : list Trade) (filters : Filters) : list Trade :=
  List.filter is_closed (apply_filters trades filters).

(** Ascending timestamp order. *)
Definition chronological (l : list Trade) : Prop :=
  StronglySorted (fun a b => (t_timestamp a <= t_timestamp b)%Z) l.

(** The replay in the words of the specification, over the trades [l] in
    chronological order.  Equity after trade [k] (counted from 0) is the sum
    of the pnl of the trades up to [k]; the peak is the largest equity so far,
    the account starting at equity 0; the maxima start at 0 as well. *)
Definition running_equity (l : list Trade) (k : nat) : Q :=
  reduce_sum pnl_num (take (S k) l).

(** The largest of 0 and [f 0], ..., [f (n - 1)]. *)
Definition running_max (f : nat -> Q) (n : nat) : Q :=
  fold_left Math_max (map f (seq 0 n)) 0.

Definition running_peak (l : list Trade) (k : nat) : Q :=
  running_max (running_equity l) (S k).

Definition drawdown_at (l : list Trade) (k : nat) : Q :=
  running_peak l k - running_equity l k.

Definition drawdownPercent_at (l : list Trade) (k : nat) : Q :=
  if Qltb 0 (running_peak l k)
  then (drawdown_at l k / running_peak l k) * 100
  else 0.

Definition equity_point_at (l : list Trade) (k : nat) : EquityPoint :=
  {| ep_date := nth k (map t_timestamp l) 0%Z;
     ep_equity := running_equity l k;
     ep_drawdown := drawdown_at l k;
     ep_drawdownPercent := drawdownPercent_at l k |}.

(** The three trades of the example, not in chronological order. *)
Definition three_trades_shuffled : list Trade :=
  [trade_plus30; trade_plus100; trade_minus50].

(** The analytics of no closed trade at all. *)
Definition neutral_summary : Summary :=
  {| totalTrades := 0; closedTradesCount := 0; openTrades := 0; winRate := 0;
     totalPnL := 0; avgWin := 0; avgLoss := 0; profitFactor := 0;
     maxDrawdown := 0; maxDrawdownPercent := 0; currentEquity := 0;
     peakEquity := 0 |}.

Definition neutral_bias : Bias :=
  {| longCount := 0; shortCount := 0; longPercent := 0; shortPercent := 0;
     longPnL := 0; shortPnL := 0 |}.

Definition neutral_fees : Fees :=
  {| totalFees := 0; avgFeePerTrade := 0; feePercentOfPnL := 0 |}.

(** The trades of the journal file after the three calls. *)
Definition three_trades_ledger : list Trade :=
  match three_trades_journal with
  | Some journal => trades journal
  | None => []
  end.

(** The portfolio figures in the words of the specification. *)
Definition sum_of_values (entries : list (string * Position)) : Q :=
  reduce_sum (fun e => p_value (snd e)) entries.

Definition sum_of_daily_yields (entries : list (string * Position)) : Q :=
  reduce_sum (fun e => p_value (snd e) * p_apy (snd e) / 100 / 365) entries.



(** ** Further parts of the three programs *)

(** *** Trade journal: the dashboard of [displayJournal] *)

(** [Math.round]: the nearest integer, a half rounding up. *)
Definition Math_round (x : Q) : Z := Qfloor (x + (1 # 2)).

(** [new Date(b.timestamp) - new Date(a.timestamp) <= 0]. *)
Definition by_timestamp_desc (a b : Trade) : bool :=
  (t_timestamp b <=? t_timestamp a)%Z.

(** [analytics.trades.sort(...).slice(0, 10)], the rows of the table of recent
    trades. *)
Definition recentTrades (analytics : Analytics) : list Trade :=
  take 10 (array_sort by_timestamp_desc (a_trades analytics)).

(** The bias bar: the two counts given to [repeat] and the label beside them;
    [None] when no closed trade is long or short and no bar is printed.
    [repeat] raises a [RangeError] on a negative count. *)
Record BiasBar := mkBiasBar {
  longBar : Z;
  shortBar : Z;
  biasLabel : string
}.

Definition biasBar (analytics : Analytics) : option BiasBar :=
  let total := longCount (bias analytics) + shortCount (bias analytics) in
  if Qltb 0 total then
    let longBar := Math_round ((longCount (bias analytics) / total) * 20) in
    let shortBar := (20 - longBar)%Z in
    Some {| longBar := longBar; shortBar := shortBar;
            biasLabel := if Qltb 50 (longPercent (bias analytics))
                         then "LONG BIAS" else "SHORT BIAS" |}
  else None.

(** The filter set of [calculateAnalytics] read as one test on a trade: every
    filter that is switched on must accept it. *)
Definition passes_filters (filters : Filters) (t : Trade) : bool :=
  (if truthy_str (f_symbol filters)
   then strict_eq (t_symbol t) (default "" (f_symbol filters)) else true) &&
  (match f_startDate filters with
   | Some d => (d <=? t_timestamp t)%Z
   | None => true
   end) &&
  (match f_endDate filters with
   | Some d => (t_timestamp t <=? d)%Z
   | None => true
   end) &&
  (if truthy_str (f_side filters)
   then strict_eq (t_side t) (default "" (f_side filters)) else true) &&
  (match f_tags filters with
   | Some (tag :: tags) => existsb (has_tag t) (tag :: tags)
   | _ => true
   end).

(** The ledger the journal file holds. *)
Definition ledger (file : option Journal) : list Trade :=
  match file with
  | Some journal => trades journal
  | None => []
  end.

(** *** JLP position simulator: the report of [main] *)

(** [Math.ceil]. *)
Definition Math_ceil (x : Q) : Z := Qceiling x.

(** The risk metrics [main] prints from the Monte Carlo summary. *)
Record RiskMetrics := mkRiskMetrics {
  downsideRisk : Q;
  upsidePotential : Q;
  riskReward : Q
}.

Section SimulatorMain.
Variable Math_pow : Q -> Q -> Q.
Variable Math_sqrt : Q -> Q.
Variable Math_random : nat -> Q.

(** The monthly breakdown: the body of
    [for (let month = 1; month <= Math.min(12, Math.ceil(days/30)); month++)],
    which leaves the loop at the first month that ends after [days].  Each
    line carries the month, the value and the profit.  The loop runs at most
    twelve times, which [fuel] counts. *)
Fixpoint monthly_loop (principal apy : Q) (days : Z) (fuel : nat) (month : Z)
  : list (Z * Q * Q) :=
  match fuel with
  | O => []
  | S fuel' =>
      if (month <=? Z.min 12 (Math_ceil (inject_Z days / 30)))%Z then
        let monthDays := (month * 30)%Z in
        if (days <? monthDays)%Z then []
        else
          let value :=
            calculateCompoundInterest Math_pow principal apy (inject_Z monthDays) 365 in
          let profit := value - principal in
          (month, value, profit) :: monthly_loop principal apy days fuel' (month + 1)
      else []
  end.

Definition monthlyProjection (principal apy : Q) (days : Z) : list (Z * Q * Q) :=
  monthly_loop principal apy days 12 1.

(** The Monte Carlo part of [main]: it reads [totalValue] and [roi] of the
    five records in turn, which raises a [TypeError] ([None]) on a record
    that is [undefined], and then computes the risk metrics. *)
Definition main_monteCarlo (principal apy : Q) (days simulations : Z) (calls : nat)
  : option (MonteCarlo * RiskMetrics * nat) :=
  match runMonteCarlo Math_pow Math_sqrt Math_random
          principal apy days simulations calls with
  | None => None
  | Some (mc, calls') =>
      match worst mc, p25 mc, median mc, p75 mc, best mc with
      | Some w, Some _, Some _, Some _, Some b =>
          let downsideRisk := ((principal - totalValue w) / principal) * 100 in
          let upsidePotential := ((totalValue b - principal) / principal) * 100 in
          Some (mc,
                {| downsideRisk := downsideRisk;
                   upsidePotential := upsidePotential;
                   riskReward := upsidePotential / downsideRisk |},
                calls')
      | _, _, _, _, _ => None
      end
  end.
End SimulatorMain.

(** What every trial built by [runMonteCarlo] satisfies. *)
Definition trial_of (yieldValue0 principal : Q) (t : Trial) : Prop :=
  yieldValue t = yieldValue0 /\
  totalValue t = principal + yieldValue t + priceReturn t /\
  roi t = ((totalValue t - principal) / principal) * 100.

(** A random source that always draws the middle of the interval. *)
Definition random_half (n : nat) : Q := 1 # 2.

(** *** Position tracker: the registry of positions *)

(** Every object of the language inherits the properties of
    [Object.prototype]: a key that an object does not hold itself is still
    found, as a function or an object, when it is one of these names. *)
Definition Object_prototype_keys : list string :=
  ["constructor"; "__defineGetter__"; "__defineSetter__"; "hasOwnProperty";
   "__lookupGetter__"; "__lookupSetter__"; "isPrototypeOf";
   "propertyIsEnumerable"; "toString"; "valueOf"; "__proto__"; "toLocaleString"].

Definition inherited_key (key : string) : bool :=
  bool_decide (key ∈ Object_prototype_keys).

(** The value of [obj[key]] for an object whose own entries are [obj]. *)
Inductive Property (A : Type) : Type :=
| OwnProperty (a : A)
| InheritedProperty
| NoProperty.
Arguments OwnProperty {A} a.
Arguments InheritedProperty {A}.
Arguments NoProperty {A}.

Definition get_property {A : Type} (obj : gmap string A) (key : string) : Property A :=
  match obj !! key with
  | Some a => OwnProperty a
  | None => if inherited_key key then InheritedProperty else NoProperty
  end.

(** [obj[key] = value] for a value that is an object: the own entry is
    updated or created, except that for the key [__proto__], when the object
    has no such entry of its own, the assignment sets the prototype and
    creates no entry. *)
Definition set_property {A : Type} (obj : gmap string A) (key : string) (value : A)
  : gmap string A :=
  match obj !! key with
  | Some _ => <[key := value]> obj
  | None => if String.eqb key "__proto__" then obj else <[key := value]> obj
  end.

Record Token := mkToken {
  mint : string;
  decimals : Z;
  priceId : string
}.

Definition TRACKED_TOKENS : gmap string Token :=
  {[ "SOL" := {| mint := "So11111111111111111111111111111111111111112";
                 decimals := 9; priceId := "SOL" |};
     "USDC" := {| mint := "EPjFWdd5AufqSSqeM2qN1xzybapC8G4wEGGkZwyTDt1v";
                  decimals := 6; priceId := "USDC" |};
     "JLP" := {| mint := "27G8MtK7VtTcCHkpASjSDdkWWYfoqT6ggEuKidVJidD4";
                 decimals := 6; priceId := "JLP" |};
     "mSOL" := {| mint := "mSoLzYCxHdYgdzU16g5QSh3i5K3z3KZK7ytfqcJm7So";
                  decimals := 9; priceId := "MSOL" |};
     "jitoSOL" := {| mint := "J1toso1uCk3RLmjorhTtrVwY9HJ7X8V9yYac6Y7kGCPn";
                     decimals := 9; priceId := "JITOSOL" |};
     "INF" := {| mint := "5oVNBeEEQvYi1cX3ir8Dx5n1P7pdxydbGF2X6TxNxUFE";
                 decimals := 9; priceId := "INF" |} ]}.

(** A position with its [lastUpdated] stamp. *)
Record StoredPosition := mkStoredPosition {
  sp_position : Position;
  sp_lastUpdated : Z
}.

(** A position whose balance and value are not numbers: what [trackPosition]
    builds from a token without [decimals], for which [Math.pow(10, undefined)]
    is NaN.  The file keeps such a balance and value as [null]. *)
Record NonNumericPosition := mkNonNumericPosition {
  nn_name : string;
  nn_token : string;
  nn_type : string;
  nn_price : Q;
  nn_apy : Q;
  nn_notes : string
}.

Inductive FileEntry :=
| NumericEntry (sp : StoredPosition)
| NonNumericEntry (p : NonNumericPosition) (lastUpdated : Z).

(** What [trackPosition] returns when it returns a position. *)
Inductive TrackedPosition :=
| Numeric (p : Position)
| NonNumeric (p : NonNumericPosition).

(** The positions file is an object keyed by position name; [None] when the
    file is missing or unreadable. *)
Definition loadPositions (file : option (gmap string FileEntry))
  : gmap string FileEntry :=
  match file with
  | Some positions => positions
  | None => ∅
  end.

Definition savePositions (positions : gmap string FileEntry)
  : option (gmap string FileEntry) := Some positions.

(** [trackPosition(name, tokenKey, type, apy, notes)]: [balance] and [price]
    are what [getTokenBalance] and [getTokenPrice] answer (0 when the request
    fails) and [now] is the clock.  The guard [!token] only stops a key that
    [TRACKED_TOKENS] neither holds nor inherits.  For a token of the table the
    exponent of [Math.pow(10, decimals)] is an integer, for which the power
    is the integer power.  The result is what the function returns ([None]
    for [undefined]) and the file left behind. *)
Definition trackPosition (balance price : Q) (now : Z)
    (name tokenKey type : string) (apy : Q) (notes : string)
    (file : option (gmap string FileEntry))
  : option TrackedPosition * option (gmap string FileEntry) :=
  match get_property TRACKED_TOKENS tokenKey with
  | NoProperty => (None, file)
  | InheritedProperty =>
      let positions := loadPositions file in
      let position :=
        {| nn_name := name; nn_token := tokenKey; nn_type := type;
           nn_price := price; nn_apy := apy; nn_notes := notes |} in
      (Some (NonNumeric position),
       savePositions (set_property positions name (NonNumericEntry position now)))
  | OwnProperty token =>
      let amount := balance / 10 ^ decimals token in
      let value := amount * price in
      let positions := loadPositions file in
      let position :=
        {| p_name := name; p_token := tokenKey; p_type := type;
           p_balance := amount; p_price := price; p_value := value;
           p_apy := apy; p_notes := notes |} in
      (Some (Numeric position),
       savePositions
         (set_property positions name
            (NumericEntry {| sp_position := position; sp_lastUpdated := now |})))
  end.

(** [removePosition(name)]: whether the position was reported removed, and the
    file left behind.  The test [positions[name]] also succeeds on a name the
    object inherits; the file is not written when the test fails. *)
Definition removePosition (name : string) (file : option (gmap string FileEntry))
  : bool * option (gmap string FileEntry) :=
  let positions := loadPositions file in
  match get_property positions name with
  | NoProperty => (false, file)
  | _ => (true, savePositions (delete name positions))
  end.

Definition numeric_position (entry : FileEntry) : option Position :=
  match entry with
  | NumericEntry sp => Some (sp_position sp)
  | NonNumericEntry _ _ => None
  end.

(** The entries of the file with a numeric balance and value.  They are listed
    in the order of the map, which need not be the order of the file: what is
    proved about them does not depend on the order. *)
Definition portfolio_entries (file : option (gmap string FileEntry))
  : list (string * Position) :=
  map_to_list (omap numeric_position (loadPositions file)).

(** [showPortfolio()] on the file: [pos.balance.toFixed(4)] raises a
    [TypeError] ([None]) on an entry whose balance is [null]. *)
Definition showPortfolio_file (file : option (gmap string FileEntry))
  : option PortfolioReport :=
  if decide (map_Forall (fun _ entry => is_Some (numeric_position entry))
               (loadPositions file))
  then Some (showPortfolio (portfolio_entries file))
  else None.

(** Two reports that agree up to the equality of numbers. *)
Definition report_agrees (r r' : PortfolioReport) : Prop :=
  match r, r' with
  | NoPositions, NoPositions => True
  | Totals tv ty b, Totals tv' ty' b' =>
      tv == tv' /\ ty == ty' /\
      match b, b' with
      | Some x, Some y => x == y
      | None, None => True
      | _, _ => False
      end
  | _, _ => False
  end.

(** The value stored under [name], 0 when there is none. *)
Definition stored_value (positions : gmap string FileEntry) (name : string) : Q :=
  match positions !! name ≫= numeric_position with
  | Some old => p_value old
  | None => 0
  end.

Definition stored_daily_yield (positions : gmap string FileEntry) (name : string)
  : Q :=
  match positions !! name ≫= numeric_position with
  | Some old => p_value old * p_apy old / 100 / 365
  | None => 0
  end.

(** A ledger of two closed trades that are both long. *)
Definition two_long_trades : list Trade := [trade_plus100; trade_minus50].

(** ** Basic facts *)

Lemma Qltb_lt (a b : Q) : Qltb a b = true <-> a < b.
Proof.
  unfold Qltb. rewrite Qlt_alt. destruct (a ?= b); split; congruence.
Qed.

Lemma Qltb_nlt (a b : Q) : Qltb a b = false <-> ~ a < b.
Proof.
  rewrite <- Qltb_lt. destruct (Qltb a b); split; congruence.
Qed.

Lemma truthy_Some (x : option Q) :
  truthy x = true <-> exists q, x = Some q /\ ~ q == 0.
Proof.
  destruct x as [q|]; simpl.
  - rewrite negb_true_iff. split.
    + intros H. exists q. split; [reflexivity|].
      intros E. apply Qeq_bool_iff in E. congruence.
    + intros (q' & [= <-] & Hq). destruct (Qeq_bool q 0) eqn:E; [|reflexivity].
      apply Qeq_bool_iff in E. contradiction.
  - split; [discriminate|]. intros (q & [=] & _).
Qed.

(** ** Trade journal: [addTrade] *)

Lemma addTrade_id (c : Clock) (trade : TradeInput) (file : option Journal) :
  t_id (fst (addTrade c trade file))
    = default ("trade-" +:+ pretty (Date_now c)) (in_id trade).
Proof. reflexivity. Qed.

Lemma trade_id_inj (m n : Z) :
  "trade-" +:+ pretty m = "trade-" +:+ pretty n -> m = n.
Proof.
  intros H. apply (inj (String.app "trade-")) in H.
  by apply (inj pretty) in H.
Qed.

(** C1 (as stated): two calls of [addTrade] in the same millisecond store two
    trades with one and the same id, so the ids of two calls are not always
    distinct. *)
Lemma addTrade_same_ms_collision :
  ~ appendTrade_ids_distinct (clock_at 1700000000000) (clock_at 1700000000000)
      exampleTrade exampleTrade None.
Proof. unfold appendTrade_ids_distinct. intros H. apply H. reflexivity. Qed.

(** C1 (amended): for input trades that carry no id of their own, the id
    stored by [addTrade] is the text "trade-" followed by the value of
    [Date.now()], and the ids stored by two calls are distinct exactly when
    the two calls read different values of [Date.now()].  An id carried by
    the input is stored in place of the generated one, so that two inputs
    carrying ids get distinct ids exactly when the ids they carry differ,
    whatever the clock, and an input carrying an id and one carrying none
    get distinct ids exactly when the id carried differs from the generated
    one. *)
Theorem addTrade_ids_distinct_iff
    (c1 c2 : Clock) (tr1 tr2 : TradeInput) (file : option Journal) :
  (in_id tr1 = None -> in_id tr2 = None ->
   t_id (fst (addTrade c1 tr1 file)) = "trade-" +:+ pretty (Date_now c1) /\
   (appendTrade_ids_distinct c1 c2 tr1 tr2 file <-> Date_now c1 <> Date_now c2)) /\
  (forall id1, in_id tr1 = Some id1 -> t_id (fst (addTrade c1 tr1 file)) = id1) /\
  (forall id1 id2, in_id tr1 = Some id1 -> in_id tr2 = Some id2 ->
   (appendTrade_ids_distinct c1 c2 tr1 tr2 file <-> id1 <> id2)) /\
  (forall id1, in_id tr1 = Some id1 -> in_id tr2 = None ->
   (appendTrade_ids_distinct c1 c2 tr1 tr2 file
    <-> id1 <> "trade-" +:+ pretty (Date_now c2))) /\
  (forall id2, in_id tr1 = None -> in_id tr2 = Some id2 ->
   (appendTrade_ids_distinct c1 c2 tr1 tr2 file
    <-> "trade-" +:+ pretty (Date_now c1) <> id2)).
Proof.
  unfold appendTrade_ids_distinct. cbv zeta. rewrite !addTrade_id.
  split; [|split; [|split; [|split]]].
  - intros -> ->. simpl. split; [reflexivity|]. split.
    + intros H E. apply H. by rewrite E.
    + intros H E. apply H. by apply trade_id_inj.
  - by intros id1 ->.
  - by intros id1 id2 -> ->.
  - by intros id1 -> ->.
  - by intros id2 -> ->.
Qed.

Lemma addTrade_ids_distinct_iff_witness :
  appendTrade_ids_distinct (clock_at 1700000000000) (clock_at 1700000000001)
    exampleTrade exampleTrade None /\
  ~ appendTrade_ids_distinct (clock_at 1700000000000) (clock_at 1700000000001)
      (tradeWithId "mine") (tradeWithId "mine") None.
Proof.
  destruct (addTrade_ids_distinct_iff (clock_at 1700000000000)
              (clock_at 1700000000001) exampleTrade exampleTrade None)
    as (Hgen & _).
  destruct (addTrade_ids_distinct_iff (clock_at 1700000000000)
              (clock_at 1700000000001) (tradeWithId "mine") (tradeWithId "mine") None)
    as (_ & _ & Hown & _).
  split.
  - apply (proj2 (Hgen eq_refl eq_refl)). simpl. lia.
  - intros H. apply (proj1 (Hown "mine" "mine" eq_refl eq_refl)) in H.
    by apply H.
Defined.

(** C2 (as stated): a trade stored as open can carry a pnl, and a trade stored
    as closed can lack one. *)
Lemma addTrade_pnl_not_tied_to_status :
  ~ pnl_iff_closed (fst (addTrade (clock_at 1700000000000) openWithExit None)) /\
  ~ pnl_iff_closed (fst (addTrade (clock_at 1700000000000) closedNoExit None)).
Proof.
  unfold pnl_iff_closed. split; intros [H1 H2].
  - assert (E : "open" = "closed") by (apply H1; simpl; eauto). discriminate.
  - destruct H2 as [q Hq]; [reflexivity | discriminate].
Qed.

(** C2 (amended): whether the trade stored by [addTrade] has a pnl is decided
    by the prices of the input and not by its status: with an exit price and
    an entry price both given and different from 0 the pnl is
    (side = long ? 1 : -1) * (exitPrice - entryPrice) * size, a pnl that is
    defined always has this value, and without an exit price or without an
    entry price there is none.  The status is stored as given and the trade
    is appended to the ledger. *)
Theorem addTrade_pnl (c : Clock) (trade : TradeInput) (file : option Journal) :
  let stored := fst (addTrade c trade file) in
  (forall ex en,
     in_exitPrice trade = Some ex -> in_entryPrice trade = Some en ->
     ~ ex == 0 -> ~ en == 0 ->
     t_pnl stored =
       Some ((if String.eqb (t_side stored) "long" then 1 else -1) * (ex - en)
             * t_size stored)) /\
  (forall p, t_pnl stored = Some p ->
     exists ex en, t_exitPrice stored = Some ex /\ t_entryPrice stored = Some en /\
       p = (if String.eqb (t_side stored) "long" then 1 else -1) * (ex - en)
           * t_size stored) /\
  (in_exitPrice trade = None \/ in_entryPrice trade = None -> t_pnl stored = None) /\
  t_status stored = in_status trade /\
  exists journal, snd (addTrade c trade file) = Some journal /\
    trades journal = trades (loadJournal c file) ++ [stored].
Proof.
  cbv zeta. simpl. unfold computed_pnl. repeat apply conj.
  - intros ex en -> -> Hex Hen.
    assert (truthy (Some ex) = true) as -> by (apply truthy_Some; eauto).
    assert (truthy (Some en) = true) as -> by (apply truthy_Some; eauto).
    reflexivity.
  - intros p.
    destruct (truthy (in_exitPrice trade) && truthy (in_entryPrice trade));
      [|discriminate].
    destruct (in_exitPrice trade) as [ex|], (in_entryPrice trade) as [en|];
      try discriminate.
    intros [= <-]. by exists ex, en.
  - intros [-> | ->]; simpl; [reflexivity|].
    by rewrite andb_false_r.
  - reflexivity.
  - eexists. split; reflexivity.
Qed.

Lemma addTrade_pnl_witness :
  t_pnl (fst (addTrade (clock_at 1700000000000) exampleTrade None))
    = Some ((if String.eqb "long" "long" then 1 else -1) * (240.00 - 235.50) * 10) /\
  t_pnl (fst (addTrade (clock_at 1700000000000) closedNoExit None)) = None.
Proof.
  split.
  - apply (proj1 (addTrade_pnl (clock_at 1700000000000) exampleTrade None)
             240.00 235.50); [reflexivity|reflexivity|discriminate|discriminate].
  - apply (proj1 (proj2 (proj2
             (addTrade_pnl (clock_at 1700000000000) closedNoExit None)))).
    left. reflexivity.
Defined.

(** ** Sorting *)

Section SortFacts.
Context {A : Type} (le : A -> A -> bool).
Hypothesis le_total : forall x y, le x y = false -> le y x = true.
Hypothesis le_trans : forall x y z, le x y = true -> le y z = true -> le x z = true.

Lemma sort_insert_perm (x : A) (l : list A) : sort_insert le x l ≡ₚ x :: l.
Proof using Type.
  induction l as [|y l IH]; simpl; [done|].
  destruct (le x y); [done|].
  rewrite IH. apply perm_swap.
Qed.

Lemma array_sort_perm (l : list A) : array_sort le l ≡ₚ l.
Proof using Type.
  induction l as [|x l IH]; simpl; [done|].
  by rewrite sort_insert_perm, IH.
Qed.

Lemma array_sort_length (l : list A) : length (array_sort le l) = length l.
Proof using Type. by rewrite array_sort_perm. Qed.

Lemma sort_insert_sorted (x : A) (l : list A) :
  StronglySorted (fun a b => le a b = true) l ->
  StronglySorted (fun a b => le a b = true) (sort_insert le x l).
Proof using le_total le_trans.
  induction 1 as [|y l Hl IH Hy]; simpl.
  - repeat constructor.
  - destruct (le x y) eqn:E.
    + constructor; [by constructor|].
      constructor; [exact E|].
      eapply Forall_impl; [exact Hy|]. intros z Hz. by eapply le_trans.
    + constructor; [exact IH|].
      rewrite sort_insert_perm. constructor; [|exact Hy]. by apply le_total.
Qed.

Lemma array_sort_sorted (l : list A) :
  StronglySorted (fun a b => le a b = true) (array_sort le l).
Proof using le_total le_trans.
  induction l as [|x l IH]; simpl; [constructor|].
  by apply sort_insert_sorted.
Qed.
End SortFacts.

Lemma StronglySorted_lookup {A : Type} (R : A -> A -> Prop) (l : list A)
    (i j : nat) (x y : A) :
  StronglySorted R l -> (i < j)%nat -> l !! i = Some x -> l !! j = Some y -> R x y.
Proof.
  intros Hl. revert i j. induction Hl as [|a l Hl IH Ha]; intros i j Hij Hi Hj.
  - by rewrite lookup_nil in Hi.
  - destruct j as [|j]; [lia|]. simpl in Hj. destruct i as [|i]; simpl in Hi.
    + injection Hi as <-. rewrite Forall_forall in Ha. apply Ha.
      by eapply list_elem_of_lookup_2.
    + apply (IH i j); [lia|done..].
Qed.

Lemma by_timestamp_total (x y : Trade) :
  by_timestamp x y = false -> by_timestamp y x = true.
Proof. unfold by_timestamp. lia. Qed.

Lemma by_timestamp_trans (x y z : Trade) :
  by_timestamp x y = true -> by_timestamp y z = true -> by_timestamp x z = true.
Proof. unfold by_timestamp. lia. Qed.

Lemma sort_by_timestamp_chronological (l : list Trade) :
  chronological (array_sort by_timestamp l).
Proof.
  pose proof (array_sort_sorted by_timestamp by_timestamp_total
                by_timestamp_trans l) as H.
  unfold chronological.
  induction H as [|a l' _ IH Ha]; constructor; [exact IH|].
  eapply Forall_impl; [exact Ha|]. intros b Hb. simpl in Hb.
  unfold by_timestamp in Hb. lia.
Qed.

(** ** Trade journal: the replay loop of [calculateAnalytics] *)

Lemma reduce_sum_snoc {A : Type} (f : A -> Q) (l : list A) (x : A) :
  reduce_sum f (l ++ [x]) = reduce_sum f l + f x.
Proof. unfold reduce_sum. by rewrite fold_left_app. Qed.

Lemma replay_snoc (l : list Trade) (x : Trade) :
  replay (l ++ [x]) = replay_step (replay l) x.
Proof. unfold replay. by rewrite fold_left_app. Qed.

Lemma running_max_S (f : nat -> Q) (n : nat) :
  running_max f (S n) = Math_max (running_max f n) (f n).
Proof.
  unfold running_max. by rewrite seq_S, map_app, fold_left_app.
Qed.

Lemma running_max_ext (f g : nat -> Q) (n : nat) :
  (forall k, (k < n)%nat -> f k = g k) -> running_max f n = running_max g n.
Proof.
  intros H. unfold running_max. f_equal. apply map_ext_in.
  intros k Hk. apply in_seq in Hk. apply H. lia.
Qed.

(** The quantities of the specification at a step [k] only depend on the
    trades up to [k]. *)
Section Prefix.
Variables (l : list Trade) (x : Trade).

Lemma running_equity_prefix (k : nat) :
  (k < length l)%nat -> running_equity (l ++ [x]) k = running_equity l k.
Proof.
  intros Hk. unfold running_equity. by rewrite take_app_le by lia.
Qed.

Lemma running_peak_prefix (k : nat) :
  (k < length l)%nat -> running_peak (l ++ [x]) k = running_peak l k.
Proof.
  intros Hk. apply running_max_ext. intros j Hj.
  apply running_equity_prefix. lia.
Qed.

Lemma drawdown_at_prefix (k : nat) :
  (k < length l)%nat -> drawdown_at (l ++ [x]) k = drawdown_at l k.
Proof.
  intros Hk. unfold drawdown_at.
  by rewrite running_peak_prefix, running_equity_prefix.
Qed.

Lemma drawdownPercent_at_prefix (k : nat) :
  (k < length l)%nat -> drawdownPercent_at (l ++ [x]) k = drawdownPercent_at l k.
Proof.
  intros Hk. unfold drawdownPercent_at.
  by rewrite drawdown_at_prefix, running_peak_prefix.
Qed.

Lemma equity_point_at_prefix (k : nat) :
  (k < length l)%nat -> equity_point_at (l ++ [x]) k = equity_point_at l k.
Proof.
  intros Hk. unfold equity_point_at.
  rewrite drawdownPercent_at_prefix, drawdown_at_prefix, running_equity_prefix by done.
  by rewrite map_app, app_nth1 by (rewrite length_map; lia).
Qed.

Lemma running_equity_last :
  running_equity (l ++ [x]) (length l) = reduce_sum pnl_num l + pnl_num x.
Proof.
  unfold running_equity.
  rewrite firstn_all2 by (rewrite length_app; simpl; lia).
  apply reduce_sum_snoc.
Qed.
End Prefix.

(** The loop computes, trade after trade, the quantities of the
    specification. *)
Lemma replay_spec (l : list Trade) :
  r_equity (replay l) = reduce_sum pnl_num l /\
  r_peakEquity (replay l) = running_max (running_equity l) (length l) /\
  r_maxDrawdown (replay l) = running_max (drawdown_at l) (length l) /\
  r_maxDrawdownPercent (replay l) = running_max (drawdownPercent_at l) (length l) /\
  r_equityCurve (replay l) = map (equity_point_at l) (seq 0 (length l)).
Proof.
  induction l as [|x l (IHe & IHp & IHd & IHdp & IHc)] using rev_ind.
  - by repeat split.
  - rewrite replay_snoc, length_app. simpl length.
    replace (length l + 1)%nat with (S (length l)) by lia.
    assert (Hpeak : Math_max (r_peakEquity (replay l)) (r_equity (replay l) + pnl_num x)
                    = running_peak (l ++ [x]) (length l)).
    { unfold running_peak. rewrite running_max_S, running_equity_last, IHp, IHe.
      f_equal. apply running_max_ext. intros k Hk.
      by rewrite running_equity_prefix. }
    assert (Hdd : Math_max (r_peakEquity (replay l)) (r_equity (replay l) + pnl_num x)
                  - (r_equity (replay l) + pnl_num x)
                  = drawdown_at (l ++ [x]) (length l)).
    { unfold drawdown_at. by rewrite <- Hpeak, running_equity_last, IHe. }
    assert (Hddp :
      (if Qltb 0 (Math_max (r_peakEquity (replay l)) (r_equity (replay l) + pnl_num x))
       then (Math_max (r_peakEquity (replay l)) (r_equity (replay l) + pnl_num x)
             - (r_equity (replay l) + pnl_num x))
            / Math_max (r_peakEquity (replay l)) (r_equity (replay l) + pnl_num x) * 100
       else 0) = drawdownPercent_at (l ++ [x]) (length l)).
    { unfold drawdownPercent_at. by rewrite <- Hdd, <- Hpeak. }
    unfold replay_step.
    cbn [r_equity r_peakEquity r_maxDrawdown r_maxDrawdownPercent r_equityCurve].
    rewrite Hddp, Hdd, Hpeak. repeat split.
    + by rewrite reduce_sum_snoc, IHe.
    + rewrite running_max_S. f_equal.
      rewrite IHd. apply running_max_ext. intros k Hk.
      by rewrite drawdown_at_prefix.
    + rewrite running_max_S. f_equal.
      rewrite IHdp. apply running_max_ext. intros k Hk.
      by rewrite drawdownPercent_at_prefix.
    + rewrite seq_S, map_app. cbn [map Nat.add]. rewrite IHc. f_equal.
      * apply map_ext_in. intros k Hk. apply in_seq in Hk.
        by rewrite equity_point_at_prefix by lia.
      * unfold equity_point_at.
        rewrite running_equity_last, IHe.
        rewrite map_app, app_nth2 by (rewrite length_map; lia).
        rewrite length_map, Nat.sub_diag. simpl.
        by rewrite <- IHe.
Qed.

Lemma replay_curve_lookup (l : list Trade) (k : nat) (t : Trade) :
  l !! k = Some t ->
  r_equityCurve (replay l) !! k =
    Some {| ep_date := t_timestamp t;
            ep_equity := running_equity l k;
            ep_drawdown := drawdown_at l k;
            ep_drawdownPercent := drawdownPercent_at l k |}.
Proof.
  intros Hk. destruct (replay_spec l) as (_ & _ & _ & _ & ->).
  pose proof (lookup_lt_Some _ _ _ Hk) as Hlt.
  rewrite list_lookup_fmap, lookup_seq_lt by done. simpl.
  unfold equity_point_at. do 2 f_equal.
  apply nth_lookup_Some with (d := 0%Z).
  by rewrite list_lookup_fmap, Hk.
Qed.

Lemma replay_curve_last (l : list Trade) (p : EquityPoint) :
  last (r_equityCurve (replay l)) = Some p -> ep_equity p = r_equity (replay l).
Proof.
  destruct l as [|x l _] using rev_ind; [discriminate|].
  rewrite replay_snoc. unfold replay_step; simpl.
  rewrite last_snoc. by intros [= <-].
Qed.

(** ** Trade journal: [calculateAnalytics] *)

Lemma analytics_fields_of_replay (trades : list Trade) (filters : Filters) :
  let a := calculateAnalytics trades filters in
  let r := replay (array_sort by_timestamp (closed_set trades filters)) in
  equityCurve a = r_equityCurve r /\
  maxDrawdown (summary a) = r_maxDrawdown r /\
  maxDrawdownPercent (summary a) = r_maxDrawdownPercent r /\
  currentEquity (summary a) = r_equity r /\
  totalPnL (summary a) =
    reduce_sum pnl_num (array_sort by_timestamp (closed_set trades filters)).
Proof. by repeat split. Qed.

(** C3: [calculateAnalytics] replays the closed trades in ascending timestamp
    order.  With [sorted] the closed trades of the filtered set put in that
    order, the point of the equity curve for trade [k] carries the running sum
    of pnl as equity, peak - equity as drawdown (the peak being the largest
    equity so far, counted from a start at 0) and drawdown / peak * 100, or 0
    when the peak is not positive, as drawdownPercent; maxDrawdown and
    maxDrawdownPercent are the maxima of these over the whole replay.  For
    three closed trades with pnl +100, -50, +30 in chronological order,
    whatever the order they are given in, the equities are 100, 50, 80,
    maxDrawdown is 50 and maxDrawdownPercent is 50. *)
Theorem calculateAnalytics_replay (trades : list Trade) (filters : Filters) :
  let a := calculateAnalytics trades filters in
  let sorted := array_sort by_timestamp (closed_set trades filters) in
  (sorted ≡ₚ closed_set trades filters /\
   chronological sorted /\
   length (equityCurve a) = length sorted /\
   (forall k t, sorted !! k = Some t ->
      equityCurve a !! k =
        Some {| ep_date := t_timestamp t;
                ep_equity := running_equity sorted k;
                ep_drawdown := drawdown_at sorted k;
                ep_drawdownPercent := drawdownPercent_at sorted k |}) /\
   maxDrawdown (summary a) = running_max (drawdown_at sorted) (length sorted) /\
   maxDrawdownPercent (summary a) =
     running_max (drawdownPercent_at sorted) (length sorted)) /\
  (map t_pnl [trade_plus100; trade_minus50; trade_plus30]
     = [Some 100; Some (-50); Some 30] /\
   forall input,
     input = [trade_plus100; trade_minus50; trade_plus30] \/
     input = three_trades_shuffled \/
     input = three_trades_ledger ->
     let a3 := calculateAnalytics input no_filters in
     map ep_equity (equityCurve a3) = [100; 50; 80] /\
     maxDrawdown (summary a3) = 50 /\
     maxDrawdownPercent (summary a3) == 50).
Proof.
  cbv zeta.
  destruct (analytics_fields_of_replay trades filters) as (-> & -> & -> & _).
  destruct (replay_spec (array_sort by_timestamp (closed_set trades filters)))
    as (_ & _ & Hd & Hdp & Hc).
  split; [repeat split|split].
  - apply array_sort_perm.
  - apply sort_by_timestamp_chronological.
  - by rewrite Hc, length_map, length_seq.
  - apply replay_curve_lookup.
  - exact Hd.
  - exact Hdp.
  - reflexivity.
  - intros input [-> | [-> | ->]]; by vm_compute.
Qed.

Lemma calculateAnalytics_replay_witness :
  let a3 := calculateAnalytics three_trades_shuffled no_filters in
  map ep_equity (equityCurve a3) = [100; 50; 80] /\
  maxDrawdown (summary a3) = 50 /\
  maxDrawdownPercent (summary a3) == 50.
Proof.
  apply (proj2 (proj2 (calculateAnalytics_replay [] no_filters))).
  right. left. reflexivity.
Defined.

Lemma apply_filters_nil (filters : Filters) : apply_filters [] filters = [].
Proof.
  unfold apply_filters.
  destruct (truthy_str (f_symbol filters)), (f_startDate filters),
    (f_endDate filters), (truthy_str (f_side filters)),
    (f_tags filters) as [[|? ?]|]; reflexivity.
Qed.

(** C5: on the empty trade list, whatever the filters, [calculateAnalytics]
    returns a result (the function is total): winRate, totalPnL and
    maxDrawdown are 0 and the equity curve is empty; avgWin, avgLoss,
    profitFactor and the other figures of the summary, the fee statistics
    and the bias counts are 0 as well. *)
Theorem calculateAnalytics_empty (filters : Filters) :
  let a := calculateAnalytics [] filters in
  winRate (summary a) = 0 /\ totalPnL (summary a) = 0 /\
  maxDrawdown (summary a) = 0 /\ equityCurve a = [] /\
  avgWin (summary a) = 0 /\ avgLoss (summary a) = 0 /\
  profitFactor (summary a) = 0 /\
  summary a = neutral_summary /\ fees a = neutral_fees /\ bias a = neutral_bias /\
  a_trades a = [].
Proof.
  cbv zeta. unfold calculateAnalytics. rewrite apply_filters_nil.
  by repeat split.
Qed.

Lemma reduce_sum_nonpos {A : Type} (f : A -> Q) (l : list A) :
  Forall (fun x => f x < 0) l -> reduce_sum f l <= 0.
Proof.
  induction l as [|x l IH] using rev_ind; intros H.
  - by compute.
  - apply Forall_app in H as [Hl Hx]. apply Forall_inv in Hx. simpl in Hx.
    rewrite reduce_sum_snoc. specialize (IH Hl). lra.
Qed.

Lemma reduce_sum_neg {A : Type} (f : A -> Q) (l : list A) :
  l <> [] -> Forall (fun x => f x < 0) l -> reduce_sum f l < 0.
Proof.
  destruct l as [|x l _] using rev_ind; [done|]. intros _ H.
  apply Forall_app in H as [Hl Hx]. apply Forall_inv in Hx. simpl in Hx.
  rewrite reduce_sum_snoc. pose proof (reduce_sum_nonpos f l Hl). lra.
Qed.

Lemma len_pos {A : Type} (l : list A) : l <> [] -> Qltb 0 (len l) = true.
Proof.
  intros H. apply Qltb_lt. unfold len. destruct l; [done|].
  simpl length. unfold Qlt. simpl. lia.
Qed.

(** C6: when the closed trades of the filtered set hold no trade with a
    negative pnl, [calculateAnalytics] reports profitFactor 0; when they hold
    one, profitFactor is the sum of the positive pnl divided by the absolute
    value of the sum of the negative pnl. *)
Theorem calculateAnalytics_profitFactor (trades : list Trade) (filters : Filters) :
  let a := calculateAnalytics trades filters in
  let closed := closed_set trades filters in
  ((forall t, t ∈ closed -> ~ pnl_num t < 0) -> profitFactor (summary a) = 0) /\
  ((exists t, t ∈ closed /\ pnl_num t < 0) ->
     profitFactor (summary a) =
       reduce_sum pnl_num (List.filter (fun t => Qltb 0 (pnl_num t)) closed) /
       Qabs (reduce_sum pnl_num (List.filter (fun t => Qltb (pnl_num t) 0) closed))).
Proof.
  cbv zeta. unfold calculateAnalytics. fold (closed_set trades filters).
  cbn [summary profitFactor]. set (closed := closed_set trades filters).
  fold is_losing. change (fun t => Qltb 0 (pnl_num t)) with is_winning.
  change (fun t => Qltb (pnl_num t) 0) with is_losing.
  split.
  - intros Hno.
    assert (List.filter is_losing closed = []) as ->; [|reflexivity].
    destruct (List.filter is_losing closed) as [|t l] eqn:E; [done|].
    assert (In t (List.filter is_losing closed)) as Ht by (rewrite E; by left).
    apply filter_In in Ht as [Ht Hneg]. apply Qltb_lt in Hneg.
    exfalso. apply (Hno t); [by apply list_elem_of_In|done].
  - intros (t & Ht & Hneg).
    assert (List.filter is_losing closed <> []) as Hne.
    { intros E. assert (In t (List.filter is_losing closed)) as Hin.
      { apply filter_In. split; [by apply list_elem_of_In|by apply Qltb_lt]. }
      by rewrite E in Hin. }
    assert (reduce_sum pnl_num (List.filter is_losing closed) < 0) as Hsum.
    { apply reduce_sum_neg; [done|]. apply Forall_forall. intros x Hx.
      apply list_elem_of_In, filter_In in Hx as [_ Hx]. by apply Qltb_lt. }
    rewrite len_pos by done.
    assert (Qltb 0 (Math_abs (reduce_sum pnl_num (List.filter is_losing closed)))
            = true) as ->; [|reflexivity].
    apply Qltb_lt. unfold Math_abs. rewrite Qabs_neg by lra. lra.
Qed.

Lemma calculateAnalytics_profitFactor_witness :
  profitFactor (summary (calculateAnalytics three_trades_shuffled no_filters)) =
    reduce_sum pnl_num [trade_plus30; trade_plus100] / Qabs (reduce_sum pnl_num [trade_minus50]).
Proof.
  apply (proj2 (calculateAnalytics_profitFactor three_trades_shuffled no_filters)).
  exists trade_minus50. split; [|reflexivity].
  apply list_elem_of_In. right. right. left. reflexivity.
Defined.

Lemma fold_sum_acc {A : Type} (f : A -> Q) (l : list A) (a b : Q) :
  a == b ->
  fold_left (fun sum x => sum + f x) l a == fold_left (fun sum x => sum + f x) l b.
Proof.
  revert a b. induction l as [|x l IH]; intros a b E; simpl; [done|].
  apply IH. by rewrite E.
Qed.

Lemma reduce_sum_perm {A : Type} (f : A -> Q) (l l' : list A) :
  l ≡ₚ l' -> reduce_sum f l == reduce_sum f l'.
Proof.
  unfold reduce_sum. generalize 0. intros a H. revert a.
  induction H as [|x l l' _ IH|x y l|l l' l'' _ IH1 _ IH2]; intros a; simpl.
  - reflexivity.
  - apply IH.
  - apply fold_sum_acc. ring.
  - by rewrite IH1.
Qed.

(** C10: in the result of [calculateAnalytics], for every trade list and every
    filter set, currentEquity equals totalPnL, which is the sum of the pnl of
    the closed trades of the filtered set, and the equity of the last point
    of the equity curve, when there is one, equals totalPnL too. *)
Theorem calculateAnalytics_currentEquity (trades : list Trade) (filters : Filters) :
  let a := calculateAnalytics trades filters in
  currentEquity (summary a) = totalPnL (summary a) /\
  totalPnL (summary a) == reduce_sum pnl_num (closed_set trades filters) /\
  (equityCurve a = [] <-> closed_set trades filters = []) /\
  (forall p, last (equityCurve a) = Some p -> ep_equity p = totalPnL (summary a)).
Proof.
  cbv zeta.
  destruct (analytics_fields_of_replay trades filters)
    as (Hc & _ & _ & -> & ->).
  destruct (replay_spec (array_sort by_timestamp (closed_set trades filters)))
    as (He & _ & _ & _ & Hcurve).
  repeat split.
  - exact He.
  - apply reduce_sum_perm, array_sort_perm.
  - rewrite Hc, Hcurve. intros E. apply (f_equal length) in E.
    rewrite length_map, length_seq, array_sort_length in E.
    by destruct (closed_set trades filters).
  - intros E. rewrite Hc, Hcurve, array_sort_length, E. reflexivity.
  - intros p Hp. rewrite Hc in Hp. apply replay_curve_last in Hp. by rewrite Hp.
Qed.

Lemma calculateAnalytics_currentEquity_witness :
  exists p,
    last (equityCurve (calculateAnalytics three_trades_shuffled no_filters)) = Some p /\
    ep_equity p = totalPnL (summary (calculateAnalytics three_trades_shuffled no_filters)).
Proof.
  eexists. split; [reflexivity|].
  apply (proj2 (proj2 (proj2
    (calculateAnalytics_currentEquity three_trades_shuffled no_filters)))).
  reflexivity.
Defined.

(** ** Position tracker: [showPortfolio] *)

Lemma reduce_sum_ext {A : Type} (f g : A -> Q) (l : list A) :
  (forall x, f x == g x) -> reduce_sum f l == reduce_sum g l.
Proof.
  intros H. induction l as [|x l IH] using rev_ind; [reflexivity|].
  by rewrite !reduce_sum_snoc, IH, H.
Qed.

Lemma portfolio_fold (entries : list (string * Position)) (tv ty : Q) :
  fold_left portfolio_step entries (tv, ty) =
    (fold_left (fun sum e => sum + p_value (snd e)) entries tv,
     fold_left (fun sum e => sum + p_value (snd e) * (p_apy (snd e) / 100) / 365)
       entries ty).
Proof.
  revert tv ty. induction entries as [|e entries IH]; intros tv ty; [done|].
  simpl. apply IH.
Qed.




(** ** JLP position simulator *)

Lemma PRICE_SCENARIOS_stable :
  PRICE_SCENARIOS !! "stable" = Some {| drift := 0; volatility := 0.02 |}.
Proof. by vm_compute. Qed.

Lemma PRICE_SCENARIOS_keys (scenario : string) :
  is_Some (PRICE_SCENARIOS !! scenario) <->
  scenario = "stable" \/ scenario = "bullish" \/ scenario = "bearish" \/
  scenario = "volatile".
Proof.
  unfold PRICE_SCENARIOS. rewrite !lookup_insert_is_Some', lookup_singleton_is_Some.
  split.
  - intros [|[|[|]]]; auto.
  - intros [|[|[|]]]; auto.
Qed.

Lemma rank_index_div (n a : Z) (b : positive) :
  rank_index n (a # b) = (n * a / Zpos b)%Z.
Proof. reflexivity. Qed.

Lemma by_totalValue_total (x y : Trial) :
  by_totalValue x y = false -> by_totalValue y x = true.
Proof.
  unfold by_totalValue. intros H. apply Qle_bool_iff.
  destruct (Qlt_le_dec (totalValue x) (totalValue y)) as [Hlt|Hle]; [|done].
  apply Qlt_le_weak, Qle_bool_iff in Hlt. congruence.
Qed.

Lemma by_totalValue_trans (x y z : Trial) :
  by_totalValue x y = true -> by_totalValue y z = true -> by_totalValue x z = true.
Proof.
  unfold by_totalValue. rewrite !Qle_bool_iff. apply Qle_trans.
Qed.

Lemma sort_by_totalValue_sorted (l : list Trial) :
  StronglySorted (fun a b => totalValue a <= totalValue b)
    (array_sort by_totalValue l).
Proof.
  pose proof (array_sort_sorted by_totalValue by_totalValue_total
                by_totalValue_trans l) as H.
  induction H as [|a l' _ IH Ha]; constructor; [exact IH|].
  eapply Forall_impl; [exact Ha|]. intros b Hb. by apply Qle_bool_iff.
Qed.

Lemma sorted_totalValue_lookup (l : list Trial) (i j : nat) (x y : Trial) :
  StronglySorted (fun a b => totalValue a <= totalValue b) l ->
  (i <= j)%nat -> l !! i = Some x -> l !! j = Some y ->
  totalValue x <= totalValue y.
Proof.
  intros Hl Hij Hi Hj. destruct (decide (i = j)) as [->|Hne].
  - rewrite Hi in Hj. injection Hj as ->. apply Qle_refl.
  - apply (StronglySorted_lookup _ l i j x y Hl); [lia|done..].
Qed.

Lemma array_get_lookup {A : Type} (l : list A) (i : Z) :
  (0 <= i)%Z -> array_get l i = l !! Z.to_nat i.
Proof.
  intros H. unfold array_get. destruct (i <? 0)%Z eqn:E; [lia|done].
Qed.

Lemma rank_lookup_defined {A : Type} (l : list A) (n a : Z) (b : positive) :
  length l = Z.to_nat n -> (1 <= n)%Z -> (0 <= a < Zpos b)%Z ->
  is_Some (array_get l (rank_index n (a # b))).
Proof.
  intros Hlen Hn Ha. rewrite rank_index_div.
  assert (0 <= n * a / Zpos b < n)%Z as [H0 H1].
  { split; [apply Z.div_pos; nia|apply Z.div_lt_upper_bound; nia]. }
  rewrite array_get_lookup by done.
  apply lookup_lt_is_Some_2. rewrite Hlen. by apply Z2Nat.inj_lt; lia.
Qed.

Lemma pow_model_unit_base (x y : Q) : x == 1 -> pow_model x y == 1.
Proof. intros E. unfold pow_model. rewrite E. apply Qpower_1. Qed.

Lemma pow_model_zero_exponent (x y : Q) : y == 0 -> pow_model x y == 1.
Proof. intros E. unfold pow_model. by rewrite E. Qed.

Section SimulatorFacts.
Variable Math_pow : Q -> Q -> Q.
Variable Math_sqrt : Q -> Q.
Variable Math_random : nat -> Q.

Lemma price_steps_spec (dailyDrift dailyVol : Q) (steps : nat) (price : Q)
    (calls : nat) :
  length (fst (price_steps Math_random dailyDrift dailyVol steps price calls)) = steps /\
  snd (price_steps Math_random dailyDrift dailyVol steps price calls)
    = (calls + steps)%nat.
Proof.
  revert price calls. induction steps as [|steps IH]; intros price calls.
  - simpl. split; [done|lia].
  - cbn [price_steps].
    specialize (IH (price * (1 + dailyDrift
                              + (Math_random calls - 0.5) * 2 * dailyVol))
                   (S calls)).
    destruct (price_steps _ _ _ steps _ (S calls)) as [prices calls'].
    simpl in *. destruct IH as [-> ->]. split; [done|lia].
Qed.

Lemma simulatePricePath_known (startPrice : Q) (days : Z) (scenario : string)
    (sc : Scenario) (calls : nat) :
  PRICE_SCENARIOS !! scenario = Some sc ->
  exists prices,
    simulatePricePath Math_sqrt Math_random startPrice days scenario calls
      = Some (startPrice :: prices, (calls + Z.to_nat days)%nat) /\
    length prices = Z.to_nat days.
Proof.
  intros Hsc. unfold simulatePricePath. rewrite Hsc.
  pose proof (price_steps_spec (drift sc / 365) (volatility sc / Math_sqrt 365)
                (Z.to_nat days) startPrice calls) as [Hlen Hcalls].
  destruct (price_steps _ _ _ _ _ _) as [prices calls'].
  simpl in *. subst calls'. by exists prices.
Qed.

(** C8: for every start price [p], every integer [days >= 0] and every
    scenario of the table (whatever its drift and volatility),
    [simulatePricePath] returns a sequence of exactly [days + 1] prices
    whose first element is [p]; for [days = 0] the sequence is [[p]]. *)
Theorem simulatePricePath_length (p : Q) (days : Z) (scenario : string)
    (sc : Scenario) (calls : nat) :
  PRICE_SCENARIOS !! scenario = Some sc ->
  (0 <= days)%Z ->
  exists path calls',
    simulatePricePath Math_sqrt Math_random p days scenario calls
      = Some (path, calls') /\
    Z.of_nat (length path) = (days + 1)%Z /\
    path !! 0%nat = Some p /\
    (days = 0%Z -> path = [p]).
Proof.
  intros Hsc Hdays.
  destruct (simulatePricePath_known p days scenario sc calls Hsc)
    as (prices & -> & Hlen).
  exists (p :: prices), (calls + Z.to_nat days)%nat.
  repeat split.
  - simpl length. lia.
  - intros ->. destruct prices; [done|discriminate].
Qed.

Lemma run_trial_total (principal apy : Q) (days : Z) (calls : nat) :
  is_Some (run_trial Math_pow Math_sqrt Math_random principal apy days calls).
Proof.
  unfold run_trial.
  destruct (simulatePricePath_known 1.0 days "stable" _ calls
              PRICE_SCENARIOS_stable) as (prices & -> & _).
  eauto.
Qed.

Lemma run_trials_total (principal apy : Q) (days : Z) (n calls : nat) :
  exists results calls',
    run_trials Math_pow Math_sqrt Math_random principal apy days n calls
      = Some (results, calls') /\
    length results = n.
Proof.
  revert calls. induction n as [|n IH]; intros calls.
  - by exists [], calls.
  - cbn [run_trials].
    destruct (run_trial_total principal apy days calls) as [[t calls1] ->].
    destruct (IH calls1) as (results & calls2 & -> & Hlen).
    exists (t :: results), calls2. simpl. by rewrite Hlen.
Qed.

(** C4: [runMonteCarlo] collects the [iterations] trials, sorts them by
    ascending totalValue and returns the records at the indices
    floor(iterations * rank) for the ranks 0.05, 0.25, 0.5, 0.75 and 0.95,
    without interpolation; for [iterations >= 5] the five records exist
    and worst <= p25 <= median <= p75 <= best in totalValue. *)
Theorem runMonteCarlo_percentiles (principal apy : Q) (days iterations : Z)
    (calls : nat) :
  exists results calls',
    run_trials Math_pow Math_sqrt Math_random principal apy days
      (Z.to_nat iterations) calls = Some (results, calls') /\
    length results = Z.to_nat iterations /\
    let sorted := array_sort by_totalValue results in
    sorted ≡ₚ results /\
    StronglySorted (fun a b => totalValue a <= totalValue b) sorted /\
    runMonteCarlo Math_pow Math_sqrt Math_random principal apy days iterations calls
      = Some ({| worst := array_get sorted (Qfloor (inject_Z iterations * 0.05));
                 p25 := array_get sorted (Qfloor (inject_Z iterations * 0.25));
                 median := array_get sorted (Qfloor (inject_Z iterations * 0.5));
                 p75 := array_get sorted (Qfloor (inject_Z iterations * 0.75));
                 best := array_get sorted (Qfloor (inject_Z iterations * 0.95)) |},
              calls') /\
    ((5 <= iterations)%Z ->
     exists w q1 m q3 b,
       array_get sorted (Qfloor (inject_Z iterations * 0.05)) = Some w /\
       array_get sorted (Qfloor (inject_Z iterations * 0.25)) = Some q1 /\
       array_get sorted (Qfloor (inject_Z iterations * 0.5)) = Some m /\
       array_get sorted (Qfloor (inject_Z iterations * 0.75)) = Some q3 /\
       array_get sorted (Qfloor (inject_Z iterations * 0.95)) = Some b /\
       totalValue w <= totalValue q1 /\ totalValue q1 <= totalValue m /\
       totalValue m <= totalValue q3 /\ totalValue q3 <= totalValue b).
Proof.
  destruct (run_trials_total principal apy days (Z.to_nat iterations) calls)
    as (results & calls' & Hrun & Hlen).
  exists results, calls'. split; [exact Hrun|]. split; [exact Hlen|].
  cbv zeta. set (sorted := array_sort by_totalValue results).
  assert (Hsorted : StronglySorted (fun a b => totalValue a <= totalValue b) sorted)
    by apply sort_by_totalValue_sorted.
  split; [apply array_sort_perm|]. split; [exact Hsorted|].
  split; [unfold runMonteCarlo; by rewrite Hrun|].
  intros Hn.
  assert (Hslen : length sorted = Z.to_nat iterations)
    by (unfold sorted; by rewrite array_sort_length).
  change (Qfloor (inject_Z iterations * 0.05)) with (rank_index iterations 0.05).
  change (Qfloor (inject_Z iterations * 0.25)) with (rank_index iterations 0.25).
  change (Qfloor (inject_Z iterations * 0.5)) with (rank_index iterations 0.5).
  change (Qfloor (inject_Z iterations * 0.75)) with (rank_index iterations 0.75).
  change (Qfloor (inject_Z iterations * 0.95)) with (rank_index iterations 0.95).
  rewrite !rank_index_div.
  rewrite !array_get_lookup by (Z.div_mod_to_equations; lia).
  destruct (lookup_lt_is_Some_2 sorted (Z.to_nat (iterations * 5 / 100)))
    as [w Hw]; [rewrite Hslen; apply Z2Nat.inj_lt; Z.div_mod_to_equations; lia|].
  destruct (lookup_lt_is_Some_2 sorted (Z.to_nat (iterations * 25 / 100)))
    as [q1 Hq1]; [rewrite Hslen; apply Z2Nat.inj_lt; Z.div_mod_to_equations; lia|].
  destruct (lookup_lt_is_Some_2 sorted (Z.to_nat (iterations * 5 / 10)))
    as [m Hm]; [rewrite Hslen; apply Z2Nat.inj_lt; Z.div_mod_to_equations; lia|].
  destruct (lookup_lt_is_Some_2 sorted (Z.to_nat (iterations * 75 / 100)))
    as [q3 Hq3]; [rewrite Hslen; apply Z2Nat.inj_lt; Z.div_mod_to_equations; lia|].
  destruct (lookup_lt_is_Some_2 sorted (Z.to_nat (iterations * 95 / 100)))
    as [b Hb]; [rewrite Hslen; apply Z2Nat.inj_lt; Z.div_mod_to_equations; lia|].
  exists w, q1, m, q3, b. repeat (split; [done|]).
  repeat split; eapply (sorted_totalValue_lookup sorted); try eassumption;
    apply Z2Nat.inj_le; Z.div_mod_to_equations; lia.
Qed.

(** The two cases of [Math.pow] that do not depend on the other argument:
    a base 1 and an exponent 0 both give 1. *)
Hypothesis Math_pow_unit_base : forall x y, x == 1 -> Math_pow x y == 1.
Hypothesis Math_pow_zero_exponent : forall x y, y == 0 -> Math_pow x y == 1.

(** C9: the numeric kernel validates nothing and raises no exception.
    [calculateCompoundInterest] gives back the principal for an APY of 0
    and for 0 days, whatever the other arguments (a non-positive principal
    or compounding frequency, negative days); [simulatePricePath] returns a
    path for every start price and every [days], and that path is
    [[startPrice]] when [days] is negative; [runMonteCarlo] returns its
    summary for every principal, APY and [days], with its five records
    present as soon as one trial is run. *)
Theorem numeric_kernel_total :
  (forall P D f, calculateCompoundInterest Math_pow P 0 D f == P) /\
  (forall P A f, calculateCompoundInterest Math_pow P A 0 f == P) /\
  (forall p days scenario calls,
     is_Some (PRICE_SCENARIOS !! scenario) ->
     is_Some (simulatePricePath Math_sqrt Math_random p days scenario calls)) /\
  (forall p days scenario calls,
     is_Some (PRICE_SCENARIOS !! scenario) -> (days < 0)%Z ->
     simulatePricePath Math_sqrt Math_random p days scenario calls
       = Some ([p], calls)) /\
  (forall principal apy days iterations calls,
     is_Some (runMonteCarlo Math_pow Math_sqrt Math_random
                principal apy days iterations calls)) /\
  (forall principal apy days iterations calls,
     (1 <= iterations)%Z ->
     exists w q1 m q3 b calls',
       runMonteCarlo Math_pow Math_sqrt Math_random
         principal apy days iterations calls
       = Some ({| worst := Some w; p25 := Some q1; median := Some m;
                  p75 := Some q3; best := Some b |}, calls')).
Proof.
  repeat apply conj.
  - intros P D f. unfold calculateCompoundInterest.
    rewrite Math_pow_unit_base; [ring|].
    unfold Qdiv. ring.
  - intros P A f. unfold calculateCompoundInterest.
    rewrite Math_pow_zero_exponent; [ring|].
    unfold Qdiv. ring.
  - intros p days scenario calls [sc Hsc].
    destruct (simulatePricePath_known p days scenario sc calls Hsc)
      as (prices & -> & _). eauto.
  - intros p days scenario calls [sc Hsc] Hdays.
    destruct (simulatePricePath_known p days scenario sc calls Hsc)
      as (prices & -> & Hlen).
    replace (Z.to_nat days) with 0%nat in * by lia.
    destruct prices; [|discriminate]. by rewrite Nat.add_0_r.
  - intros principal apy days iterations calls. unfold runMonteCarlo.
    destruct (run_trials_total principal apy days (Z.to_nat iterations) calls)
      as (results & calls' & -> & _). eauto.
  - intros principal apy days iterations calls Hn. unfold runMonteCarlo.
    destruct (run_trials_total principal apy days (Z.to_nat iterations) calls)
      as (results & calls' & -> & Hlen).
    assert (Hslen : length (array_sort by_totalValue results) = Z.to_nat iterations)
      by (by rewrite array_sort_length).
    destruct (rank_lookup_defined _ iterations 5 100 Hslen Hn) as [w ->]; [lia|].
    destruct (rank_lookup_defined _ iterations 25 100 Hslen Hn) as [q1 ->]; [lia|].
    destruct (rank_lookup_defined _ iterations 5 10 Hslen Hn) as [m ->]; [lia|].
    destruct (rank_lookup_defined _ iterations 75 100 Hslen Hn) as [q3 ->]; [lia|].
    destruct (rank_lookup_defined _ iterations 95 100 Hslen Hn) as [b ->]; [lia|].
    by exists w, q1, m, q3, b, calls'.
Qed.
End SimulatorFacts.

Lemma simulatePricePath_length_witness :
  exists path calls',
    simulatePricePath sqrt_model random_model 1 3 "stable" 0 = Some (path, calls') /\
    Z.of_nat (length path) = (3 + 1)%Z /\
    path !! 0%nat = Some 1 /\
    (3%Z = 0%Z -> path = [1]).
Proof.
  apply (simulatePricePath_length sqrt_model random_model 1 3 "stable"
           {| drift := 0; volatility := 0.02 |} 0).
  - by vm_compute.
  - lia.
Defined.

Lemma runMonteCarlo_percentiles_witness :
  exists mc calls' w b,
    runMonteCarlo pow_model sqrt_model random_model 1000 14.5 2 5 0
      = Some (mc, calls') /\
    worst mc = Some w /\ best mc = Some b /\ totalValue w <= totalValue b.
Proof.
  destruct (runMonteCarlo_percentiles pow_model sqrt_model random_model
              1000 14.5 2 5 0)
    as (results & calls' & _ & _ & _ & _ & H & Hord).
  destruct Hord as (w & q1 & m & q3 & b & Hw & _ & _ & _ & Hb & H1 & H2 & H3 & H4);
    [lia|].
  eexists _, calls', w, b. split; [exact H|]. split; [exact Hw|].
  split; [exact Hb|].
  eapply Qle_trans; [exact H1|]. eapply Qle_trans; [exact H2|].
  eapply Qle_trans; [exact H3|exact H4].
Defined.

Lemma numeric_kernel_total_witness :
  calculateCompoundInterest pow_model (-1000) 0 30 365 == -1000 /\
  calculateCompoundInterest pow_model 1000 14.5 0 0 == 1000 /\
  simulatePricePath sqrt_model random_model (-1) (-7) "stable" 0 = Some ([-1], 0%nat).
Proof.
  destruct (numeric_kernel_total pow_model sqrt_model random_model
              pow_model_unit_base pow_model_zero_exponent)
    as (H1 & H2 & _ & H4 & _).
  split; [apply H1|]. split; [apply H2|].
  apply H4; [|lia]. apply PRICE_SCENARIOS_keys. by left.
Defined.


(** ** Trade journal: further properties of [calculateAnalytics] *)

Lemma filter_filter_andb {A : Type} (f g : A -> bool) (l : list A) :
  List.filter g (List.filter f l) = List.filter (fun x => f x && g x) l.
Proof.
  induction l as [|x l IH]; [done|]. simpl.
  destruct (f x); simpl; [|exact IH]. destruct (g x); by rewrite IH.
Qed.

Lemma filter_true {A : Type} (l : list A) : List.filter (fun _ => true) l = l.
Proof. induction l as [|x l IH]; [done|]. simpl. by rewrite IH. Qed.

Lemma apply_filters_filter (trades : list Trade) (filters : Filters) :
  apply_filters trades filters = List.filter (passes_filters filters) trades.
Proof.
  unfold apply_filters, passes_filters. cbv zeta.
  destruct (truthy_str (f_symbol filters)), (f_startDate filters),
    (f_endDate filters), (truthy_str (f_side filters)),
    (f_tags filters) as [[|? ?]|];
    rewrite ?filter_filter_andb;
    first [ symmetry; apply filter_true
          | apply filter_ext; intros x; simpl;
            rewrite ?andb_true_r, ?andb_assoc; reflexivity ].
Qed.


Lemma len_nonneg {A : Type} (l : list A) : 0 <= len l.
Proof. unfold len. rewrite <- (Zle_Qle 0). lia. Qed.

Lemma len_le {A B : Type} (l : list A) (l' : list B) :
  (length l <= length l')%nat -> len l <= len l'.
Proof. intros H. unfold len. rewrite <- Zle_Qle. lia. Qed.

Lemma len_app {A : Type} (l l' : list A) : len (l ++ l') == len l + len l'.
Proof.
  unfold len. rewrite length_app, Nat2Z.inj_add, inject_Z_plus. reflexivity.
Qed.

Lemma len_eq {A B : Type} (l : list A) (l' : list B) :
  length l = length l' -> len l = len l'.
Proof. intros H. unfold len. by rewrite H. Qed.

Lemma len_pos_iff {A : Type} (l : list A) : Qltb 0 (len l) = true <-> l <> [].
Proof.
  split; [|apply len_pos]. intros H ->. by compute in H.
Qed.

Lemma filter_disjoint_length {A : Type} (f g : A -> bool) (l : list A) :
  (forall x, f x = true -> g x = false) ->
  (length (List.filter f l) + length (List.filter g l) <= length l)%nat.
Proof.
  intros H. induction l as [|x l IH]; [done|]. simpl.
  destruct (f x) eqn:Ef.
  - rewrite (H x Ef). simpl. lia.
  - destruct (g x); simpl; lia.
Qed.

Lemma replay_curve_dates (l : list Trade) :
  map ep_date (r_equityCurve (replay l)) = map t_timestamp l.
Proof.
  induction l as [|x l IH] using rev_ind; [done|].
  rewrite replay_snoc. unfold replay_step. cbn [r_equityCurve].
  by rewrite !map_app, IH.
Qed.

(** X2: in the summary of [calculateAnalytics] the closed and the open trades
    are counted among the filtered ones, closedTrades + openTrades <=
    totalTrades, with equality when every filtered trade is either open or
    closed with a pnl; the count of closed trades is the number of trades
    that are closed with a pnl. *)
Theorem calculateAnalytics_counts (trades : list Trade) (filters : Filters) :
  let a := calculateAnalytics trades filters in
  closedTradesCount (summary a) = len (closed_set trades filters) /\
  totalTrades (summary a) = len (apply_filters trades filters) /\
  closedTradesCount (summary a) + openTrades (summary a) <= totalTrades (summary a) /\
  ((forall t, In t (apply_filters trades filters) ->
      is_closed t = true \/ t_status t = "open") ->
   closedTradesCount (summary a) + openTrades (summary a) == totalTrades (summary a)).
Proof.
  cbv zeta. unfold calculateAnalytics. cbn [summary closedTradesCount openTrades totalTrades].
  fold (closed_set trades filters). unfold closed_set.
  set (filtered := apply_filters trades filters).
  assert (Hc : len (array_sort by_timestamp (List.filter is_closed filtered))
               = len (List.filter is_closed filtered))
    by (apply len_eq, array_sort_length).
  rewrite Hc. repeat apply conj; try reflexivity.
  - rewrite <- len_app. apply len_le. rewrite length_app.
    apply filter_disjoint_length. intros x Hx. unfold is_closed in Hx.
    apply andb_true_iff in Hx as [Hx _]. unfold strict_eq in *.
    apply String.eqb_eq in Hx. by rewrite Hx.
  - intros Hall. rewrite <- len_app. unfold len.
    rewrite length_app. do 3 f_equal. clear Hc. unfold strict_eq.
    induction filtered as [|x l IH]; [done|]. simpl.
    assert (Hl : forall t, In t l -> is_closed t = true \/ t_status t = "open")
      by (intros t Ht; apply Hall; by right).
    specialize (IH Hl).
    destruct (Hall x (or_introl eq_refl)) as [Hx|Hx].
    + rewrite Hx. unfold is_closed, strict_eq in Hx.
      apply andb_true_iff in Hx as [Hx _].
      apply String.eqb_eq in Hx. rewrite Hx. simpl. lia.
    + assert (is_closed x = false) as ->
        by (unfold is_closed, strict_eq; by rewrite Hx).
      rewrite Hx. simpl. lia.
Qed.

Lemma calculateAnalytics_counts_witness :
  closedTradesCount (summary (calculateAnalytics three_trades_shuffled no_filters))
  + openTrades (summary (calculateAnalytics three_trades_shuffled no_filters))
  == totalTrades (summary (calculateAnalytics three_trades_shuffled no_filters)).
Proof.
  apply (proj2 (proj2 (proj2
           (calculateAnalytics_counts three_trades_shuffled no_filters)))).
  intros t [<- | [<- | [<- | []]]]; left; reflexivity.
Defined.

(** X3: the win rate [calculateAnalytics] reports always lies between 0 and
    100. *)
Theorem calculateAnalytics_winRate_range (trades : list Trade) (filters : Filters) :
  0 <= winRate (summary (calculateAnalytics trades filters)) <= 100.
Proof.
  unfold calculateAnalytics. cbn [summary winRate].
  set (closed := List.filter is_closed (apply_filters trades filters)).
  set (n := len (array_sort by_timestamp closed)).
  set (w := len (List.filter is_winning closed)).
  assert (Hw : 0 <= w) by apply len_nonneg.
  assert (Hwn : w <= n).
  { apply len_le. rewrite array_sort_length. apply filter_length_le. }
  destruct (Qltb 0 n) eqn:E; [|split; [apply Qle_refl|discriminate]].
  apply Qltb_lt in E.
  assert (0 <= w / n) by (apply Qle_shift_div_l; lra).
  assert (w / n <= 1) by (apply Qle_shift_div_r; lra).
  split; lra.
Qed.

Lemma chronological_timestamps (l : list Trade) :
  chronological l -> StronglySorted Z.le (map t_timestamp l).
Proof.
  induction 1 as [|x l _ IH Hx]; simpl; constructor; [exact IH|].
  apply Forall_map. exact Hx.
Qed.

(** X4: the equity curve of [calculateAnalytics] has one point per closed
    trade, dated with the timestamps of the closed trades in ascending
    order. *)
Theorem calculateAnalytics_curve_dates (trades : list Trade) (filters : Filters) :
  let a := calculateAnalytics trades filters in
  map ep_date (equityCurve a)
    = map t_timestamp (array_sort by_timestamp (closed_set trades filters)) /\
  map ep_date (equityCurve a) ≡ₚ map t_timestamp (closed_set trades filters) /\
  StronglySorted Z.le (map ep_date (equityCurve a)) /\
  len (equityCurve a) = closedTradesCount (summary a).
Proof.
  cbv zeta.
  destruct (analytics_fields_of_replay trades filters) as (-> & _).
  pose proof (replay_curve_dates
                (array_sort by_timestamp (closed_set trades filters))) as Hd.
  repeat apply conj.
  - exact Hd.
  - rewrite Hd. apply Permutation_map, array_sort_perm.
  - rewrite Hd.
    apply chronological_timestamps, sort_by_timestamp_chronological.
  - apply len_eq. apply (f_equal length) in Hd. by rewrite !length_map in Hd.
Qed.

Lemma Math_max_cases (a b : Q) : Math_max a b = a \/ Math_max a b = b.
Proof.
  unfold Math_max, Qmax, GenericMinMax.gmax. destruct (a ?= b); auto.
Qed.

Lemma Math_max_l (a b : Q) : a <= Math_max a b.
Proof. apply Q.le_max_l. Qed.

Lemma Math_max_r (a b : Q) : b <= Math_max a b.
Proof. apply Q.le_max_r. Qed.

(** What the replay loop keeps true from one trade to the next. *)
Lemma replay_invariant (l : list Trade) :
  let r := replay l in
  0 <= r_peakEquity r /\
  r_equity r <= r_peakEquity r /\
  0 <= r_maxDrawdown r /\
  0 <= r_maxDrawdownPercent r /\
  Forall (fun p => 0 <= ep_drawdown p <= r_maxDrawdown r /\
                   0 <= ep_drawdownPercent p <= r_maxDrawdownPercent r /\
                   ep_equity p + ep_drawdown p <= r_peakEquity r)
         (r_equityCurve r) /\
  (r_maxDrawdown r = 0 \/
   Exists (fun p => ep_drawdown p = r_maxDrawdown r) (r_equityCurve r)).
Proof.
  induction l as [|x l IH] using rev_ind.
  - simpl. repeat split; try apply Qle_refl; [constructor|by left].
  - cbv zeta in *. rewrite replay_snoc.
    destruct IH as (Hp & Hep & Hd & Hdp & Hall & Hex).
    set (r := replay l) in *. unfold replay_step.
    cbn [r_equity r_peakEquity r_maxDrawdown r_maxDrawdownPercent r_equityCurve].
    set (e := r_equity r + pnl_num x).
    set (pk := Math_max (r_peakEquity r) e).
    set (dd := pk - e).
    set (ddp := if Qltb 0 pk then dd / pk * 100 else 0).
    assert (H1 : r_peakEquity r <= pk) by apply Math_max_l.
    assert (H2 : e <= pk) by apply Math_max_r.
    assert (H3 : 0 <= dd) by (unfold dd; lra).
    assert (H4 : 0 <= ddp).
    { unfold ddp. destruct (Qltb 0 pk) eqn:E; [|apply Qle_refl].
      apply Qltb_lt in E.
      assert (0 <= dd / pk) by (apply Qle_shift_div_l; lra). lra. }
    pose proof (Math_max_l (r_maxDrawdown r) dd) as H5.
    pose proof (Math_max_r (r_maxDrawdown r) dd) as H6.
    pose proof (Math_max_l (r_maxDrawdownPercent r) ddp) as H7.
    pose proof (Math_max_r (r_maxDrawdownPercent r) ddp) as H8.
    repeat apply conj; try lra.
    + apply Forall_app. split.
      * eapply Forall_impl; [exact Hall|]. simpl. intros p (Ha & Hb & Hc).
        repeat split; lra.
      * constructor; [|constructor]. simpl. unfold dd in *. repeat split; lra.
    + destruct (Math_max_cases (r_maxDrawdown r) dd) as [E|E]; rewrite E.
      * destruct Hex as [Hex|Hex]; [by left|right].
        apply Exists_app. by left.
      * right. apply Exists_app. right. by constructor.
Qed.

(** X5: in the result of [calculateAnalytics] the peak equity is at least 0
    and at least the current equity; every point of the equity curve has a
    drawdown between 0 and maxDrawdown, a drawdownPercent between 0 and
    maxDrawdownPercent, and an equity plus drawdown (the peak at that time)
    of at most the final peak; and maxDrawdown is 0 or the drawdown of some
    point of the curve. *)
Theorem calculateAnalytics_drawdown_bounds (trades : list Trade) (filters : Filters) :
  let a := calculateAnalytics trades filters in
  0 <= peakEquity (summary a) /\
  currentEquity (summary a) <= peakEquity (summary a) /\
  0 <= maxDrawdown (summary a) /\
  0 <= maxDrawdownPercent (summary a) /\
  Forall (fun p => 0 <= ep_drawdown p <= maxDrawdown (summary a) /\
                   0 <= ep_drawdownPercent p <= maxDrawdownPercent (summary a) /\
                   ep_equity p + ep_drawdown p <= peakEquity (summary a))
         (equityCurve a) /\
  (maxDrawdown (summary a) = 0 \/
   Exists (fun p => ep_drawdown p = maxDrawdown (summary a)) (equityCurve a)).
Proof.
  exact (replay_invariant (array_sort by_timestamp (closed_set trades filters))).
Qed.

Lemma reduce_sum_nonneg {A : Type} (f : A -> Q) (l : list A) :
  Forall (fun x => 0 <= f x) l -> 0 <= reduce_sum f l.
Proof.
  induction l as [|x l IH] using rev_ind; intros H.
  - apply Qle_refl.
  - apply Forall_app in H as [Hl Hx]. apply Forall_inv in Hx. simpl in Hx.
    rewrite reduce_sum_snoc. specialize (IH Hl). lra.
Qed.

Lemma reduce_sum_split {A : Type} (f : A -> Q) (p q : A -> bool) (l : list A) :
  Forall (fun x => p x = negb (q x)) l ->
  reduce_sum f l == reduce_sum f (List.filter p l) + reduce_sum f (List.filter q l).
Proof.
  induction l as [|x l IH] using rev_ind; intros H.
  - reflexivity.
  - apply Forall_app in H as [Hl Hx]. apply Forall_inv in Hx. simpl in Hx.
    rewrite !List.filter_app, reduce_sum_snoc, (IH Hl). simpl. rewrite Hx.
    destruct (q x); simpl; rewrite ?app_nil_r, ?reduce_sum_snoc; ring.
Qed.

Lemma len_zero {A : Type} (l : list A) : Qltb 0 (len l) = false -> l = [].
Proof.
  intros H. destruct l as [|x l]; [done|].
  rewrite len_pos in H; [discriminate|done].
Qed.

(** X6: the long and short closed trades are counted among the closed ones;
    each of the two percentages of the bias lies between 0 and 100, and they
    are ordered as the two counts are; when all these trades are on one side
    that side has 100 and the other 0, and both are 0 when there is no such
    trade. *)
Theorem calculateAnalytics_bias_percent (trades : list Trade) (filters : Filters) :
  let a := calculateAnalytics trades filters in
  longCount (bias a) + shortCount (bias a) <= closedTradesCount (summary a) /\
  0 <= longCount (bias a) /\ 0 <= shortCount (bias a) /\
  0 <= longPercent (bias a) <= 100 /\
  0 <= shortPercent (bias a) <= 100 /\
  (shortPercent (bias a) <= longPercent (bias a)
   <-> shortCount (bias a) <= longCount (bias a)) /\
  (0 < longCount (bias a) -> shortCount (bias a) == 0 ->
   longPercent (bias a) == 100 /\ shortPercent (bias a) == 0) /\
  (0 < shortCount (bias a) -> longCount (bias a) == 0 ->
   shortPercent (bias a) == 100 /\ longPercent (bias a) == 0) /\
  (~ 0 < longCount (bias a) + shortCount (bias a) ->
   longPercent (bias a) = 0 /\ shortPercent (bias a) = 0).
Proof.
  cbv zeta. unfold calculateAnalytics.
  cbn [bias summary longCount shortCount longPercent shortPercent closedTradesCount].
  set (closed := array_sort by_timestamp _).
  set (nl := len (List.filter _ closed)).
  set (ns := len (List.filter (fun t => strict_eq (t_side t) "short") closed)).
  assert (Hl : 0 <= nl) by apply len_nonneg.
  assert (Hs : 0 <= ns) by apply len_nonneg.
  split.
  { unfold nl, ns. rewrite <- len_app. apply len_le. rewrite length_app.
    apply filter_disjoint_length. intros x Hx. unfold strict_eq in *.
    apply String.eqb_eq in Hx. by rewrite Hx. }
  split; [exact Hl|]. split; [exact Hs|].
  destruct (Qltb 0 (nl + ns)) eqn:E.
  - apply Qltb_lt in E.
    assert (Hq1 : nl / (nl + ns) * (nl + ns) == nl) by (field; lra).
    assert (Hq2 : ns / (nl + ns) * (nl + ns) == ns) by (field; lra).
    assert (0 <= nl / (nl + ns)) by (apply Qle_shift_div_l; lra).
    assert (nl / (nl + ns) <= 1) by (apply Qle_shift_div_r; lra).
    assert (0 <= ns / (nl + ns)) by (apply Qle_shift_div_l; lra).
    assert (ns / (nl + ns) <= 1) by (apply Qle_shift_div_r; lra).
    split; [split; lra|]. split; [split; lra|]. split; [|split; [|split]].
    + split; intros Hle.
      * assert (ns / (nl + ns) <= nl / (nl + ns)) as Hq by lra.
        apply (proj2 (Qmult_le_r _ _ (nl + ns) E)) in Hq.
        by rewrite Hq1, Hq2 in Hq.
      * assert (ns / (nl + ns) * (nl + ns) <= nl / (nl + ns) * (nl + ns)) as Hq
          by (by rewrite Hq1, Hq2).
        apply (proj1 (Qmult_le_r _ _ (nl + ns) E)) in Hq. lra.
    + intros Hpos Hz. split.
      * assert (nl / (nl + ns) == 1) as -> by (field_simplify; [rewrite Hz; field|]; lra).
        reflexivity.
      * rewrite Hz. unfold Qdiv. ring.
    + intros Hpos Hz. split.
      * assert (ns / (nl + ns) == 1) as -> by (field_simplify; [rewrite Hz; field|]; lra).
        reflexivity.
      * rewrite Hz. unfold Qdiv. ring.
    + intros Hn. contradiction.
  - apply Qltb_nlt in E.
    split; [split; [apply Qle_refl|discriminate]|].
    split; [split; [apply Qle_refl|discriminate]|].
    split; [|split; [|split]].
    + split; intros _; [lra|apply Qle_refl].
    + intros Hpos. exfalso. apply E. lra.
    + intros Hpos. exfalso. apply E. lra.
    + done.
Qed.

Lemma calculateAnalytics_bias_percent_witness :
  longPercent (bias (calculateAnalytics two_long_trades no_filters)) == 100 /\
  shortPercent (bias (calculateAnalytics two_long_trades no_filters)) == 0.
Proof.
  destruct (calculateAnalytics_bias_percent two_long_trades no_filters)
    as (_ & _ & _ & _ & _ & _ & Hlong & _).
  apply Hlong; reflexivity.
Defined.

(** X7: when every closed trade of the filtered set is long or short, the
    total pnl is the pnl of the long trades plus the pnl of the short trades,
    and the two counts add up to the count of closed trades. *)
Theorem calculateAnalytics_bias_pnl (trades : list Trade) (filters : Filters) :
  (forall t, In t (closed_set trades filters) ->
     t_side t = "long" \/ t_side t = "short") ->
  let a := calculateAnalytics trades filters in
  totalPnL (summary a) == longPnL (bias a) + shortPnL (bias a) /\
  closedTradesCount (summary a) == longCount (bias a) + shortCount (bias a).
Proof.
  intros Hside. cbv zeta. unfold calculateAnalytics.
  cbn [bias summary longCount shortCount longPnL shortPnL closedTradesCount totalPnL].
  fold (closed_set trades filters).
  set (closed := array_sort by_timestamp _).
  assert (Hall : Forall (fun t => strict_eq (t_side t) "long"
                                  = negb (strict_eq (t_side t) "short")) closed).
  { apply Forall_forall. intros t Ht. apply list_elem_of_In in Ht.
    assert (In t (closed_set trades filters)) as Hin.
    { eapply Permutation_in; [apply array_sort_perm|exact Ht]. }
    destruct (Hside t Hin) as [-> | ->]; reflexivity. }
  split.
  - by apply reduce_sum_split.
  - rewrite <- len_app. unfold len. rewrite length_app. do 3 f_equal.
    clear -Hall. induction Hall as [|x l Hx _ IH]; [done|]. simpl.
    rewrite Hx. destruct (strict_eq (t_side x) "short"); simpl; lia.
Qed.

Lemma calculateAnalytics_bias_pnl_witness :
  totalPnL (summary (calculateAnalytics three_trades_shuffled no_filters))
  == longPnL (bias (calculateAnalytics three_trades_shuffled no_filters))
     + shortPnL (bias (calculateAnalytics three_trades_shuffled no_filters)).
Proof.
  apply (calculateAnalytics_bias_pnl three_trades_shuffled no_filters).
  intros t [<- | [<- | [<- | []]]]; vm_compute; auto.
Defined.

(** X8: the average win reported by [calculateAnalytics] is never negative,
    the average loss never positive and the profit factor never negative;
    the average win is positive as soon as one closed trade has a positive
    pnl, the average loss negative as soon as one has a negative pnl. *)
Theorem calculateAnalytics_signs (trades : list Trade) (filters : Filters) :
  let a := calculateAnalytics trades filters in
  0 <= avgWin (summary a) /\
  avgLoss (summary a) <= 0 /\
  0 <= profitFactor (summary a) /\
  ((exists t, In t (closed_set trades filters) /\ 0 < pnl_num t) ->
   0 < avgWin (summary a)) /\
  ((exists t, In t (closed_set trades filters) /\ pnl_num t < 0) ->
   avgLoss (summary a) < 0).
Proof.
  cbv zeta. unfold calculateAnalytics. cbn [summary avgWin avgLoss profitFactor].
  fold (closed_set trades filters). set (closed := closed_set trades filters).
  set (wins := List.filter is_winning closed).
  set (losses := List.filter is_losing closed).
  assert (Hw : Forall (fun t => 0 < pnl_num t) wins).
  { apply Forall_forall. intros t Ht.
    apply list_elem_of_In, filter_In in Ht as [_ Ht]. by apply Qltb_lt. }
  assert (Hl : Forall (fun t => pnl_num t < 0) losses).
  { apply Forall_forall. intros t Ht.
    apply list_elem_of_In, filter_In in Ht as [_ Ht]. by apply Qltb_lt. }
  assert (Hsw : 0 <= reduce_sum pnl_num wins).
  { apply reduce_sum_nonneg. eapply Forall_impl; [exact Hw|].
    intros t Ht. simpl in Ht. lra. }
  pose proof (reduce_sum_nonpos pnl_num losses Hl) as Hsl.
  repeat apply conj.
  - destruct (Qltb 0 (len wins)) eqn:E; [|apply Qle_refl].
    apply Qltb_lt in E. apply Qle_shift_div_l; lra.
  - destruct (Qltb 0 (len losses)) eqn:E; [|apply Qle_refl].
    apply Qltb_lt in E. apply Qle_shift_div_r; lra.
  - destruct (Qltb 0 (len losses) &&
              Qltb 0 (Math_abs (reduce_sum pnl_num losses))) eqn:E;
      [|apply Qle_refl].
    apply andb_true_iff in E as [_ E]. apply Qltb_lt in E.
    apply Qle_shift_div_l; lra.
  - intros (t & Ht & Hpos).
    assert (wins <> []) as Hne.
    { intros E. assert (In t wins) as Hin
        by (apply filter_In; split; [done|by apply Qltb_lt]).
      by rewrite E in Hin. }
    rewrite len_pos by done.
    assert (0 < len wins) by (apply Qltb_lt; by apply len_pos).
    apply Qlt_shift_div_l; [done|].
    assert (reduce_sum (fun t => - pnl_num t) wins < 0) as Hneg.
    { apply reduce_sum_neg; [done|]. eapply Forall_impl; [exact Hw|].
      intros x Hx. simpl in Hx. lra. }
    assert (reduce_sum (fun t => - pnl_num t) wins == - reduce_sum pnl_num wins) as Hopp.
    { clear. induction wins as [|x l IH] using rev_ind; [reflexivity|].
      rewrite !reduce_sum_snoc, IH. ring. }
    lra.
  - intros (t & Ht & Hneg).
    assert (losses <> []) as Hne.
    { intros E. assert (In t losses) as Hin
        by (apply filter_In; split; [done|by apply Qltb_lt]).
      by rewrite E in Hin. }
    rewrite len_pos by done.
    assert (0 < len losses) by (apply Qltb_lt; by apply len_pos).
    apply Qlt_shift_div_r; [done|].
    pose proof (reduce_sum_neg pnl_num losses Hne Hl). lra.
Qed.

Lemma calculateAnalytics_signs_witness :
  0 < avgWin (summary (calculateAnalytics three_trades_shuffled no_filters)) /\
  avgLoss (summary (calculateAnalytics three_trades_shuffled no_filters)) < 0.
Proof.
  destruct (calculateAnalytics_signs three_trades_shuffled no_filters)
    as (_ & _ & _ & Hw & Hl).
  split.
  - apply Hw. exists trade_plus100. split; [|reflexivity].
    right. left. reflexivity.
  - apply Hl. exists trade_minus50. split; [|reflexivity].
    right. right. left. reflexivity.
Defined.

(** X9: the average fee per trade times the number of closed trades gives
    back the total fees, also when there is no closed trade; when no closed
    trade carries a negative fee, the total fees, the average fee and the fee
    percentage are not negative. *)
Theorem calculateAnalytics_fees (trades : list Trade) (filters : Filters) :
  let a := calculateAnalytics trades filters in
  avgFeePerTrade (fees a) * closedTradesCount (summary a) == totalFees (fees a) /\
  ((forall t f, In t (closed_set trades filters) -> t_fees t = Some f -> 0 <= f) ->
   0 <= totalFees (fees a) /\ 0 <= avgFeePerTrade (fees a) /\
   0 <= feePercentOfPnL (fees a)).
Proof.
  cbv zeta. unfold calculateAnalytics.
  cbn [fees summary avgFeePerTrade totalFees closedTradesCount feePercentOfPnL].
  fold (closed_set trades filters).
  set (closed := array_sort by_timestamp _).
  split.
  - destruct (Qltb 0 (len closed)) eqn:E.
    + apply Qltb_lt in E. field. lra.
    + apply len_zero in E. rewrite E. reflexivity.
  - intros Hfees.
    assert (Htot : 0 <= reduce_sum fees_num closed).
    { apply reduce_sum_nonneg, Forall_forall. intros t Ht.
      apply list_elem_of_In in Ht.
      assert (In t (closed_set trades filters)) as Hin.
      { eapply Permutation_in; [apply array_sort_perm|exact Ht]. }
      unfold fees_num. destruct (truthy (t_fees t)); [|apply Qle_refl].
      destruct (t_fees t) as [f|] eqn:Ef; [|apply Qle_refl].
      simpl. by apply (Hfees t f). }
    repeat apply conj.
    + exact Htot.
    + destruct (Qltb 0 (len closed)) eqn:E; [|apply Qle_refl].
      apply Qltb_lt in E. apply Qle_shift_div_l; lra.
    + destruct (Qeq_bool (r_equity (replay closed)) 0) eqn:E; [apply Qle_refl|].
      apply Qeq_bool_neq in E.
      assert (0 < Math_abs (r_equity (replay closed))) as Habs.
      { unfold Math_abs.
        destruct (Qlt_le_dec (r_equity (replay closed)) 0) as [Hlt|Hge].
        - rewrite Qabs_neg by lra. lra.
        - rewrite Qabs_pos by done.
          destruct (Qle_lt_or_eq _ _ Hge) as [Hlt|Heq]; [done|].
          exfalso. apply E. by rewrite <- Heq. }
      assert (0 <= reduce_sum fees_num closed / Math_abs (r_equity (replay closed)))
        by (apply Qle_shift_div_l; lra).
      lra.
Qed.

Lemma calculateAnalytics_fees_witness :
  0 <= totalFees (fees (calculateAnalytics three_trades_shuffled no_filters)).
Proof.
  apply (proj2 (calculateAnalytics_fees three_trades_shuffled no_filters)).
  intros t f [<- | [<- | [<- | []]]]; discriminate.
Defined.

Lemma filter_perm {A : Type} (f : A -> bool) (l l' : list A) :
  l ≡ₚ l' -> List.filter f l ≡ₚ List.filter f l'.
Proof.
  induction 1 as [|x l l' _ IH|x y l|l l' l'' _ IH1 _ IH2]; simpl.
  - done.
  - destruct (f x); by rewrite IH.
  - destruct (f x), (f y); try done. apply perm_swap.
  - by rewrite IH1.
Qed.

Lemma closed_set_perm (trades trades' : list Trade) (filters : Filters) :
  trades ≡ₚ trades' -> closed_set trades filters ≡ₚ closed_set trades' filters.
Proof.
  intros H. unfold closed_set. rewrite !apply_filters_filter.
  by do 2 apply filter_perm.
Qed.

(** X10: the figures of [calculateAnalytics] that count or add up do not
    depend on the order in which the trades are stored: for two ledgers that
    hold the same trades in a different order the counts and the win rate are
    equal, and the total pnl, the current equity and the total fees agree. *)
Theorem calculateAnalytics_order_independent
    (trades trades' : list Trade) (filters : Filters) :
  trades ≡ₚ trades' ->
  let a := calculateAnalytics trades filters in
  let a' := calculateAnalytics trades' filters in
  totalTrades (summary a) = totalTrades (summary a') /\
  closedTradesCount (summary a) = closedTradesCount (summary a') /\
  openTrades (summary a) = openTrades (summary a') /\
  winRate (summary a) = winRate (summary a') /\
  totalPnL (summary a) == totalPnL (summary a') /\
  currentEquity (summary a) == currentEquity (summary a') /\
  totalFees (fees a) == totalFees (fees a') /\
  len (equityCurve a) = len (equityCurve a').
Proof.
  intros Hperm. cbv zeta.
  pose proof (closed_set_perm trades trades' filters Hperm) as Hclosed.
  assert (Hsorted : array_sort by_timestamp (closed_set trades filters)
                    ≡ₚ array_sort by_timestamp (closed_set trades' filters))
    by (by rewrite !array_sort_perm).
  assert (Hfiltered : apply_filters trades filters ≡ₚ apply_filters trades' filters)
    by (rewrite !apply_filters_filter; by apply filter_perm).
  assert (Hn : len (array_sort by_timestamp (closed_set trades filters))
               = len (array_sort by_timestamp (closed_set trades' filters)))
    by (apply len_eq; by rewrite Hsorted).
  assert (Hw : len (List.filter is_winning (closed_set trades filters))
               = len (List.filter is_winning (closed_set trades' filters))).
  { apply len_eq. apply Permutation_length. by apply filter_perm. }
  destruct (analytics_fields_of_replay trades filters) as (Hc & _ & _ & He & Ht).
  destruct (analytics_fields_of_replay trades' filters) as (Hc' & _ & _ & He' & Ht').
  destruct (replay_spec (array_sort by_timestamp (closed_set trades filters)))
    as (Hr & _ & _ & _ & Hcv).
  destruct (replay_spec (array_sort by_timestamp (closed_set trades' filters)))
    as (Hr' & _ & _ & _ & Hcv').
  repeat apply conj.
  - apply len_eq. by rewrite Hfiltered.
  - exact Hn.
  - apply len_eq. apply Permutation_length. by apply filter_perm.
  - unfold calculateAnalytics. cbn [summary winRate].
    fold (closed_set trades filters) (closed_set trades' filters).
    by rewrite Hn, Hw.
  - rewrite Ht, Ht'. by apply reduce_sum_perm.
  - rewrite He, He', Hr, Hr'. by apply reduce_sum_perm.
  - unfold calculateAnalytics. cbn [fees totalFees].
    fold (closed_set trades filters) (closed_set trades' filters).
    by apply reduce_sum_perm.
  - apply len_eq. rewrite Hc, Hc', Hcv, Hcv', !length_map, !length_seq.
    by rewrite Hsorted.
Qed.

Lemma calculateAnalytics_order_independent_witness :
  totalPnL (summary (calculateAnalytics three_trades_shuffled no_filters))
  == totalPnL (summary (calculateAnalytics
                          [trade_plus100; trade_minus50; trade_plus30] no_filters)).
Proof.
  apply (calculateAnalytics_order_independent three_trades_shuffled
           [trade_plus100; trade_minus50; trade_plus30] no_filters).
  unfold three_trades_shuffled.
  etransitivity; [apply perm_swap|]. apply perm_skip, perm_swap.
Defined.

Lemma closed_set_snoc (trades : list Trade) (t : Trade) (filters : Filters) :
  closed_set (trades ++ [t]) filters =
    closed_set trades filters ++
    (if passes_filters filters t && is_closed t then [t] else []).
Proof.
  unfold closed_set. rewrite !apply_filters_filter, !List.filter_app. simpl.
  destruct (passes_filters filters t); simpl; [|done].
  by destruct (is_closed t).
Qed.

Lemma addTrade_ledger (c : Clock) (trade : TradeInput) (file : option Journal) :
  ledger (snd (addTrade c trade file)) = ledger file ++ [fst (addTrade c trade file)].
Proof. by destruct file. Qed.

(** X11: recording a trade with [addTrade] and running [calculateAnalytics]
    on the ledger again, under any filters: when the stored trade is closed
    with a pnl and passes the filters, the count of closed trades grows by
    one and the total pnl by the pnl of the trade; otherwise the closed
    trades, the total pnl and the equity curve are what they were. *)
Theorem addTrade_then_analytics
    (c : Clock) (trade : TradeInput) (file : option Journal) (filters : Filters) :
  let stored := fst (addTrade c trade file) in
  let before := calculateAnalytics (ledger file) filters in
  let after := calculateAnalytics (ledger (snd (addTrade c trade file))) filters in
  (passes_filters filters stored && is_closed stored = true ->
   closedTradesCount (summary after) == closedTradesCount (summary before) + 1 /\
   totalPnL (summary after) == totalPnL (summary before) + pnl_num stored) /\
  (passes_filters filters stored && is_closed stored = false ->
   closedTradesCount (summary after) = closedTradesCount (summary before) /\
   totalPnL (summary after) = totalPnL (summary before) /\
   equityCurve after = equityCurve before).
Proof.
  cbv zeta. rewrite addTrade_ledger.
  set (stored := fst (addTrade c trade file)).
  destruct (analytics_fields_of_replay (ledger file) filters)
    as (Hc & _ & _ & _ & Ht).
  destruct (analytics_fields_of_replay (ledger file ++ [stored]) filters)
    as (Hc' & _ & _ & _ & Ht').
  split; intros Hcond.
  - assert (Hset : closed_set (ledger file ++ [stored]) filters
                   = closed_set (ledger file) filters ++ [stored])
      by (by rewrite closed_set_snoc, Hcond).
    split.
    + unfold calculateAnalytics. cbn [summary closedTradesCount].
      fold (closed_set (ledger file ++ [stored]) filters)
           (closed_set (ledger file) filters).
      unfold len. rewrite !array_sort_length, Hset, length_app. simpl length.
      rewrite Nat2Z.inj_add, inject_Z_plus. reflexivity.
    + rewrite Ht, Ht', !(reduce_sum_perm _ _ _ (array_sort_perm _ _)), Hset.
      by rewrite reduce_sum_snoc.
  - assert (Hset : closed_set (ledger file ++ [stored]) filters
                   = closed_set (ledger file) filters)
      by (by rewrite closed_set_snoc, Hcond, app_nil_r).
    rewrite Ht, Ht', Hc, Hc', Hset. repeat split.
    unfold calculateAnalytics. cbn [summary closedTradesCount].
    fold (closed_set (ledger file ++ [stored]) filters)
         (closed_set (ledger file) filters).
    by rewrite Hset.
Qed.

Lemma addTrade_then_analytics_witness :
  totalPnL (summary (calculateAnalytics
                       (ledger (snd (addTrade (clock_at 1700000000000)
                                       exampleTrade None))) no_filters))
  == totalPnL (summary (calculateAnalytics (ledger None) no_filters))
     + pnl_num (fst (addTrade (clock_at 1700000000000) exampleTrade None)).
Proof.
  apply (proj1 (addTrade_then_analytics (clock_at 1700000000000) exampleTrade
                  None no_filters)).
  reflexivity.
Defined.

(** ** Trade journal: the dashboard of [displayJournal] *)

Lemma by_timestamp_desc_total (x y : Trade) :
  by_timestamp_desc x y = false -> by_timestamp_desc y x = true.
Proof. unfold by_timestamp_desc. lia. Qed.

Lemma by_timestamp_desc_trans (x y z : Trade) :
  by_timestamp_desc x y = true -> by_timestamp_desc y z = true ->
  by_timestamp_desc x z = true.
Proof. unfold by_timestamp_desc. lia. Qed.

Lemma StronglySorted_app_cross {A : Type} (R : A -> A -> Prop) (l1 l2 : list A) :
  StronglySorted R (l1 ++ l2) ->
  StronglySorted R l1 /\ forall x y, In x l1 -> In y l2 -> R x y.
Proof.
  induction l1 as [|a l1 IH]; simpl; intros H.
  - split; [constructor|]. intros x y [].
  - apply StronglySorted_inv in H as [H Ha]. destruct (IH H) as [IH1 IH2].
    split.
    + constructor; [exact IH1|]. apply Forall_app in Ha. tauto.
    + intros x y [<-|Hx] Hy; [|by apply IH2].
      rewrite Forall_forall in Ha. apply Ha.
      apply list_elem_of_In, in_or_app. by right.
Qed.

(** X12: the table of recent trades of [displayJournal] shows at most ten
    trades, all of them when there are ten or fewer; they are filtered trades
    in descending order of timestamp, and no trade left out is more recent
    than a trade shown. *)
Theorem recentTrades_most_recent (analytics : Analytics) :
  length (recentTrades analytics) = Nat.min 10 (length (a_trades analytics)) /\
  StronglySorted (fun a b => (t_timestamp b <= t_timestamp a)%Z)
    (recentTrades analytics) /\
  exists rest,
    recentTrades analytics ++ rest ≡ₚ a_trades analytics /\
    forall shown hidden,
      In shown (recentTrades analytics) -> In hidden rest ->
      (t_timestamp hidden <= t_timestamp shown)%Z.
Proof.
  unfold recentTrades.
  set (sorted := array_sort by_timestamp_desc (a_trades analytics)).
  assert (Hs : StronglySorted (fun a b => (t_timestamp b <= t_timestamp a)%Z) sorted).
  { pose proof (array_sort_sorted by_timestamp_desc by_timestamp_desc_total
                  by_timestamp_desc_trans (a_trades analytics)) as H.
    fold sorted in H.
    induction H as [|a l' _ IH Ha]; constructor; [exact IH|].
    eapply Forall_impl; [exact Ha|]. intros b Hb. simpl in Hb.
    unfold by_timestamp_desc in Hb. lia. }
  rewrite <- (take_drop 10 sorted) in Hs.
  apply StronglySorted_app_cross in Hs as [Hs1 Hs2].
  split; [|split; [exact Hs1|]].
  - rewrite length_take. unfold sorted. by rewrite array_sort_length.
  - exists (drop 10 sorted). split.
    + rewrite take_drop. apply array_sort_perm.
    + intros shown hidden H1 H2. by apply Hs2.
Qed.

Lemma Math_round_range (x : Q) (n : Z) :
  0 <= x <= inject_Z n -> (0 <= Math_round x <= n)%Z.
Proof.
  intros [H0 Hn]. unfold Math_round. split.
  - change 0%Z with (Qfloor 0). apply Qfloor_resp_le. lra.
  - assert (Qfloor (x + (1 # 2)) <= Qfloor (inject_Z n + (1 # 2)))%Z as H
      by (apply Qfloor_resp_le; lra).
    assert (Qfloor (inject_Z n + (1 # 2)) = n) as E; [|lia].
    assert (Qfloor (inject_Z n + (1 # 2)) < n + 1)%Z.
    { apply Z.lt_nge. intros Hc.
      pose proof (Qfloor_le (inject_Z n + (1 # 2))) as Hf.
      assert (inject_Z (n + 1) <= inject_Z (Qfloor (inject_Z n + (1 # 2))))
        by (rewrite <- Zle_Qle; exact Hc).
      rewrite inject_Z_plus in *. change (inject_Z 1) with 1 in *. lra. }
    assert (n <= Qfloor (inject_Z n + (1 # 2)))%Z.
    { rewrite <- (Qfloor_Z n) at 1. apply Qfloor_resp_le. lra. }
    lia.
Qed.

(** X13: the bias bar of [displayJournal] is printed exactly when a closed
    trade is long or short; its two parts then have lengths between 0 and 20
    that add up to 20, so neither [repeat] is given a negative count, and its
    label is LONG BIAS exactly when there are more long than short closed
    trades: an even split is labelled SHORT BIAS. *)
Theorem biasBar_spec (trades : list Trade) (filters : Filters) :
  let a := calculateAnalytics trades filters in
  (biasBar a = None <-> longCount (bias a) + shortCount (bias a) == 0) /\
  forall bar, biasBar a = Some bar ->
    (0 <= longBar bar <= 20)%Z /\ (0 <= shortBar bar <= 20)%Z /\
    (longBar bar + shortBar bar = 20)%Z /\
    (biasLabel bar = "LONG BIAS" <-> shortCount (bias a) < longCount (bias a)) /\
    (biasLabel bar = "SHORT BIAS" <-> longCount (bias a) <= shortCount (bias a)).
Proof.
  cbv zeta. unfold biasBar.
  unfold calculateAnalytics.
  cbn [bias longCount shortCount longPercent].
  set (closed := array_sort by_timestamp _).
  set (nl := len (List.filter _ closed)).
  set (ns := len (List.filter (fun t => strict_eq (t_side t) "short") closed)).
  assert (Hl : 0 <= nl) by apply len_nonneg.
  assert (Hs : 0 <= ns) by apply len_nonneg.
  destruct (Qltb 0 (nl + ns)) eqn:E.
  - apply Qltb_lt in E. split.
    + split; [discriminate|]. intros H. lra.
    + intros bar [= <-]. cbn [longBar shortBar biasLabel].
      assert (Hq0 : 0 <= nl / (nl + ns)) by (apply Qle_shift_div_l; lra).
      assert (Hq1 : nl / (nl + ns) <= 1) by (apply Qle_shift_div_r; lra).
      assert (Hround : (0 <= Math_round (nl / (nl + ns) * 20) <= 20)%Z).
      { apply Math_round_range. change (inject_Z 20) with 20. lra. }
      assert (Hhalf : 50 < nl / (nl + ns) * 100 <-> ns < nl).
      { assert (Hmul : nl / (nl + ns) * (nl + ns) == nl) by (field; lra).
        split; intros H.
        - assert ((1 # 2) < nl / (nl + ns)) as Hq by lra.
          assert ((1 # 2) * (nl + ns) < nl / (nl + ns) * (nl + ns))
            by (apply Qmult_lt_r; lra).
          lra.
        - assert ((1 # 2) < nl / (nl + ns)); [|lra].
          apply Qlt_shift_div_l; lra. }
      repeat apply conj; try lia.
      * destruct (Qltb 50 (nl / (nl + ns) * 100)) eqn:E50.
        -- apply Qltb_lt in E50. intros _. by apply Hhalf.
        -- discriminate.
      * intros H. apply Hhalf in H. apply Qltb_lt in H. by rewrite H.
      * destruct (Qltb 50 (nl / (nl + ns) * 100)) eqn:E50; [discriminate|].
        apply Qltb_nlt in E50. intros _.
        apply Qnot_lt_le. intros H. apply E50. by apply Hhalf.
      * intros H.
        assert (Qltb 50 (nl / (nl + ns) * 100) = false) as ->; [|done].
        apply Qltb_nlt. intros H'. apply Hhalf in H'. lra.
  - apply Qltb_nlt in E. split.
    + split; [|done]. intros _. lra.
    + intros bar [=].
Qed.

Lemma biasBar_spec_witness :
  exists bar,
    biasBar (calculateAnalytics three_trades_shuffled no_filters) = Some bar /\
    (longBar bar + shortBar bar = 20)%Z /\ biasLabel bar = "LONG BIAS".
Proof.
  eexists. split; [reflexivity|].
  destruct (proj2 (biasBar_spec three_trades_shuffled no_filters) _ eq_refl)
    as (_ & _ & Hsum & Hlabel & _).
  split; [exact Hsum|]. apply Hlabel. reflexivity.
Defined.

(** ** JLP position simulator: price paths *)

Lemma PRICE_SCENARIOS_bounds (scenario : string) (sc : Scenario) :
  PRICE_SCENARIOS !! scenario = Some sc ->
  -0.15 <= drift sc <= 0.15 /\ 0 <= volatility sc <= 0.15.
Proof.
  intros H.
  assert (is_Some (PRICE_SCENARIOS !! scenario)) as Hk by eauto.
  apply PRICE_SCENARIOS_keys in Hk as [-> | [-> | [-> | ->]]];
    vm_compute in H; injection H as <-; simpl; lra.
Qed.

Section PathFacts.
Variable Math_sqrt : Q -> Q.
Variable Math_random : nat -> Q.

Lemma price_steps_step (dailyDrift dailyVol : Q) (steps : nat) (price : Q)
    (calls i : nat) (prev next : Q) :
  (price :: fst (price_steps Math_random dailyDrift dailyVol steps price calls)) !! i
    = Some prev ->
  fst (price_steps Math_random dailyDrift dailyVol steps price calls) !! i
    = Some next ->
  next = prev * (1 + dailyDrift
                 + (Math_random (calls + i)%nat - 0.5) * 2 * dailyVol).
Proof.
  revert price calls i prev next.
  induction steps as [|steps IH]; intros price calls i prev next Hprev Hnext.
  - simpl in Hnext. by rewrite lookup_nil in Hnext.
  - cbn [price_steps] in Hprev, Hnext.
    destruct (price_steps Math_random dailyDrift dailyVol steps
                (price * (1 + dailyDrift
                          + (Math_random calls - 0.5) * 2 * dailyVol))
                (S calls)) as [prices calls'] eqn:E.
    cbn [fst] in Hprev, Hnext.
    destruct i as [|i].
    + simpl in Hprev, Hnext. injection Hprev as <-. injection Hnext as <-.
      by rewrite Nat.add_0_r.
    + simpl in Hprev, Hnext.
      replace (calls + S i)%nat with (S calls + i)%nat by lia.
      eapply IH; rewrite E; simpl; eassumption.
Qed.

(** X14: a path of [simulatePricePath] is built one day at a time: each price
    is the price of the day before times 1 + drift/365 + shock, the shock
    being (r - 0.5) * 2 * volatility/sqrt(365) for the draw [r] of that day;
    one random number is drawn per day and none when [days] is not
    positive. *)
Theorem simulatePricePath_steps (p : Q) (days : Z) (scenario : string)
    (sc : Scenario) (calls : nat) (path : list Q) (calls' : nat) :
  PRICE_SCENARIOS !! scenario = Some sc ->
  simulatePricePath Math_sqrt Math_random p days scenario calls = Some (path, calls') ->
  calls' = (calls + Z.to_nat days)%nat /\
  forall i prev next,
    path !! i = Some prev -> path !! S i = Some next ->
    next = prev * (1 + drift sc / 365
                   + (Math_random (calls + i)%nat - 0.5) * 2
                     * (volatility sc / Math_sqrt 365)).
Proof.
  intros Hsc. unfold simulatePricePath. rewrite Hsc.
  pose proof (price_steps_spec Math_random (drift sc / 365)
                (volatility sc / Math_sqrt 365) (Z.to_nat days) p calls)
    as [_ Hcalls].
  pose proof (price_steps_step (drift sc / 365) (volatility sc / Math_sqrt 365)
                (Z.to_nat days) p calls) as Hstep.
  destruct (price_steps _ _ _ _ _ _) as [prices c]. simpl in *.
  intros [= <- <-]. split; [exact Hcalls|].
  intros i prev next Hprev Hnext. by apply Hstep.
Qed.

Lemma price_steps_positive (dailyDrift dailyVol : Q) (steps : nat) (price : Q)
    (calls : nat) :
  (forall n, 0 <= Math_random n <= 1) ->
  0 <= dailyVol -> 0 < 1 + dailyDrift - dailyVol -> 0 < price ->
  Forall (fun x => 0 < x)
    (fst (price_steps Math_random dailyDrift dailyVol steps price calls)).
Proof.
  intros Hr Hv Hf. revert price calls.
  induction steps as [|steps IH]; intros price calls Hp; [constructor|].
  cbn [price_steps].
  set (price' := price * (1 + dailyDrift + (Math_random calls - 0.5) * 2 * dailyVol)).
  assert (0 < price') as Hp'.
  { unfold price'. apply Qmult_lt_0_compat; [exact Hp|].
    destruct (Hr calls) as [H0 H1].
    assert (0 <= Math_random calls * dailyVol) by (by apply Qmult_le_0_compat).
    lra. }
  specialize (IH price' (S calls) Hp').
  destruct (price_steps _ _ _ steps price' (S calls)) as [prices c].
  simpl in *. by constructor.
Qed.

(** X15: when every draw of the random source lies between 0 and 1 and the
    square root of 365 is at least 1, every price of a path of
    [simulatePricePath] that starts at a positive price is positive, for each
    scenario of the table. *)
Theorem simulatePricePath_positive (p : Q) (days : Z) (scenario : string)
    (sc : Scenario) (calls : nat) (path : list Q) (calls' : nat) :
  (forall n, 0 <= Math_random n <= 1) ->
  1 <= Math_sqrt 365 ->
  0 < p ->
  PRICE_SCENARIOS !! scenario = Some sc ->
  simulatePricePath Math_sqrt Math_random p days scenario calls = Some (path, calls') ->
  Forall (fun x => 0 < x) path.
Proof.
  intros Hr Hsqrt Hp Hsc. unfold simulatePricePath. rewrite Hsc.
  destruct (PRICE_SCENARIOS_bounds scenario sc Hsc) as [[Hd1 Hd2] [Hv1 Hv2]].
  assert (Hvol : 0 <= volatility sc / Math_sqrt 365 <= 0.15).
  { split.
    - apply Qle_shift_div_l; lra.
    - apply Qle_shift_div_r; lra. }
  assert (Hdrift : -0.15 / 365 <= drift sc / 365).
  { apply Qle_shift_div_l; [reflexivity|]. field_simplify. lra. }
  pose proof (price_steps_positive (drift sc / 365) (volatility sc / Math_sqrt 365)
                (Z.to_nat days) p calls Hr) as Hpos.
  destruct (price_steps _ _ _ _ _ _) as [prices c]. simpl in *.
  intros [= <- <-]. constructor; [exact Hp|].
  apply Hpos; [lra| |exact Hp].
  assert (-0.15 / 365 == - (15 # 36500)) as E by reflexivity.
  rewrite E in Hdrift. lra.
Qed.

Lemma price_steps_no_shock (dailyDrift dailyVol : Q) (steps : nat) (price : Q)
    (calls i : nat) (x : Q) :
  (forall n, Math_random n == 1 # 2) ->
  fst (price_steps Math_random dailyDrift dailyVol steps price calls) !! i = Some x ->
  x == price * (1 + dailyDrift) ^ Z.of_nat (S i).
Proof.
  intros Hr. revert price calls i.
  induction steps as [|steps IH]; intros price calls i Hx.
  - simpl in Hx. by rewrite lookup_nil in Hx.
  - cbn [price_steps] in Hx.
    set (price' := price * (1 + dailyDrift + (Math_random calls - 0.5) * 2 * dailyVol))
      in *.
    assert (price' == price * (1 + dailyDrift)) as Hp'.
    { unfold price'. rewrite (Hr calls). ring. }
    destruct (price_steps _ _ _ steps price' (S calls)) as [prices c] eqn:E.
    simpl in Hx. destruct i as [|i]; simpl in Hx.
    + injection Hx as <-. rewrite Hp'.
      change (Z.of_nat 1) with 1%Z. rewrite Qpower_1_r. reflexivity.
    + specialize (IH price' (S calls) i). rewrite E in IH. cbn [fst] in IH.
      rewrite (IH Hx), Hp'.
      replace (Z.of_nat (S (S i))) with (1 + Z.of_nat (S i))%Z by lia.
      rewrite (Qpower_plus' (1 + dailyDrift) 1 (Z.of_nat (S i))) by lia.
      rewrite Qpower_1_r.
      generalize ((1 + dailyDrift) ^ Z.of_nat (S i)). intros q. ring.
Qed.

(** X16: when every draw is 1/2 there is no shock, and the price of day [i] on
    a path of [simulatePricePath] is the start price times
    (1 + drift/365) to the power [i], whatever the volatility; for a scenario
    without drift the path stays at its start price. *)
Theorem simulatePricePath_no_shock (p : Q) (days : Z) (scenario : string)
    (sc : Scenario) (calls : nat) (path : list Q) (calls' : nat) :
  (forall n, Math_random n == 1 # 2) ->
  PRICE_SCENARIOS !! scenario = Some sc ->
  simulatePricePath Math_sqrt Math_random p days scenario calls = Some (path, calls') ->
  (forall i x, path !! i = Some x -> x == p * (1 + drift sc / 365) ^ Z.of_nat i) /\
  (drift sc == 0 -> Forall (fun x => x == p) path).
Proof.
  intros Hr Hsc. unfold simulatePricePath. rewrite Hsc.
  pose proof (price_steps_no_shock (drift sc / 365) (volatility sc / Math_sqrt 365)
                (Z.to_nat days) p calls) as Hstep.
  destruct (price_steps _ _ _ _ _ _) as [prices c]. simpl in *.
  intros [= <- <-].
  assert (Hall : forall i x, (p :: prices) !! i = Some x ->
                             x == p * (1 + drift sc / 365) ^ Z.of_nat i).
  { intros [|i] x Hx; simpl in Hx.
    - injection Hx as <-. change (Z.of_nat 0) with 0%Z.
      rewrite Qpower_0_r. ring.
    - by apply Hstep. }
  split; [exact Hall|].
  intros Hd. apply Forall_forall. intros x Hx.
  apply list_elem_of_lookup in Hx as [i Hi].
  rewrite (Hall i x Hi).
  assert (1 + drift sc / 365 == 1) as -> by (rewrite Hd; reflexivity).
  rewrite Qpower_1. ring.
Qed.
End PathFacts.

Lemma random_model_range (n : nat) : 0 <= random_model n <= 1.
Proof.
  unfold random_model, Qle. simpl.
  pose proof (Z.mod_pos_bound (1103515245 * Z.of_nat n + 12345) 2147483648
                ltac:(lia)).
  lia.
Qed.

Lemma simulatePricePath_steps_witness :
  exists path calls',
    simulatePricePath sqrt_model random_model 1 3 "stable" 0 = Some (path, calls') /\
    calls' = (0 + Z.to_nat 3)%nat.
Proof.
  eexists _, _. split; [by vm_compute|].
  refine (proj1 (simulatePricePath_steps sqrt_model random_model 1 3 "stable"
                   {| drift := 0; volatility := 0.02 |} 0 _ _ _ _)).
  - by vm_compute.
  - by vm_compute.
Defined.

Lemma simulatePricePath_positive_witness :
  exists path calls',
    simulatePricePath sqrt_model random_model 1 3 "volatile" 0 = Some (path, calls') /\
    Forall (fun x => 0 < x) path.
Proof.
  eexists _, _. split; [by vm_compute|].
  refine (simulatePricePath_positive sqrt_model random_model 1 3 "volatile"
            {| drift := 0; volatility := 0.15 |} 0 _ _ _ _ _ _ _).
  - apply random_model_range.
  - by vm_compute.
  - reflexivity.
  - by vm_compute.
  - by vm_compute.
Defined.

Lemma simulatePricePath_no_shock_witness :
  exists path calls',
    simulatePricePath sqrt_model random_half 7 3 "stable" 0 = Some (path, calls') /\
    Forall (fun x => x == 7) path.
Proof.
  eexists _, _. split; [by vm_compute|].
  refine (proj2 (simulatePricePath_no_shock sqrt_model random_half 7 3 "stable"
                   {| drift := 0; volatility := 0.02 |} 0 _ _ _ _ _) _).
  - intros n. reflexivity.
  - by vm_compute.
  - by vm_compute.
  - reflexivity.
Defined.

(** ** JLP position simulator: Monte Carlo trials and the report of [main] *)

Lemma array_get_In {A : Type} (l : list A) (i : Z) (x : A) :
  array_get l i = Some x -> In x l.
Proof.
  unfold array_get. destruct (i <? 0)%Z; [discriminate|]. intros H.
  apply list_elem_of_In. by eapply list_elem_of_lookup_2.
Qed.

Lemma array_get_nil {A : Type} (i : Z) : array_get (@nil A) i = None.
Proof. unfold array_get. destruct (i <? 0)%Z; [done|]. apply lookup_nil. Qed.

Section TrialFacts.
Variable Math_pow : Q -> Q -> Q.
Variable Math_sqrt : Q -> Q.
Variable Math_random : nat -> Q.

Lemma run_trial_spec (principal apy : Q) (days : Z) (calls : nat) :
  exists t,
    run_trial Math_pow Math_sqrt Math_random principal apy days calls
      = Some (t, (calls + Z.to_nat days)%nat) /\
    trial_of (calculateCompoundInterest Math_pow principal apy (inject_Z days) 365
              - principal) principal t /\
    ((days <= 0)%Z -> priceReturn t == 0).
Proof.
  unfold run_trial.
  destruct (simulatePricePath_known Math_sqrt Math_random 1.0 days "stable" _ calls
              PRICE_SCENARIOS_stable) as (prices & -> & Hlen).
  eexists. split; [reflexivity|]. split; [by repeat split|].
  intros Hd. cbn [priceReturn].
  replace (Z.to_nat days) with 0%nat in Hlen by lia.
  destruct prices; [|discriminate]. simpl. ring.
Qed.

Lemma run_trials_spec (principal apy : Q) (days : Z) (n calls : nat) :
  exists results,
    run_trials Math_pow Math_sqrt Math_random principal apy days n calls
      = Some (results, (calls + n * Z.to_nat days)%nat) /\
    length results = n /\
    Forall (trial_of (calculateCompoundInterest Math_pow principal apy
                        (inject_Z days) 365 - principal) principal) results /\
    ((days <= 0)%Z -> Forall (fun t => priceReturn t == 0) results).
Proof.
  revert calls. induction n as [|n IH]; intros calls.
  - exists []. simpl. rewrite Nat.add_0_r. repeat split; constructor.
  - cbn [run_trials].
    destruct (run_trial_spec principal apy days calls) as (t & -> & Ht & Ht0).
    destruct (IH (calls + Z.to_nat days)%nat) as (results & -> & Hlen & Hall & Hall0).
    exists (t :: results). repeat split.
    + do 2 f_equal. lia.
    + simpl. by rewrite Hlen.
    + by constructor.
    + intros Hd. constructor; auto.
Qed.

Lemma runMonteCarlo_records (principal apy : Q) (days iterations : Z) (calls : nat)
    (mc : MonteCarlo) (calls' : nat) (t : Trial) :
  runMonteCarlo Math_pow Math_sqrt Math_random principal apy days iterations calls
    = Some (mc, calls') ->
  In (Some t) [worst mc; p25 mc; median mc; p75 mc; best mc] ->
  exists results,
    run_trials Math_pow Math_sqrt Math_random principal apy days
      (Z.to_nat iterations) calls = Some (results, calls') /\
    In t results.
Proof.
  unfold runMonteCarlo. intros Hrun Hin.
  destruct (run_trials _ _ _ _ _ _ _ _) as [[results c]|] eqn:E; [|discriminate].
  injection Hrun as <- <-. exists results. split; [reflexivity|].
  assert (In t (array_sort by_totalValue results)) as Hs.
  { cbn [worst p25 median p75 best] in Hin.
    destruct Hin as [H|[H|[H|[H|[H|[]]]]]]; by apply array_get_In in H. }
  eapply Permutation_in; [apply array_sort_perm|exact Hs].
Qed.

(** X17: every record [runMonteCarlo] returns is one of its trials: its yield
    component is the compound interest on the principal, the same in every
    record, its total value is principal + yieldValue + priceReturn and its
    roi is (totalValue - principal) / principal * 100; the run draws
    [iterations] times [days] random numbers. *)
Theorem runMonteCarlo_trial_records (principal apy : Q) (days iterations : Z)
    (calls : nat) (mc : MonteCarlo) (calls' : nat) :
  runMonteCarlo Math_pow Math_sqrt Math_random principal apy days iterations calls
    = Some (mc, calls') ->
  calls' = (calls + Z.to_nat iterations * Z.to_nat days)%nat /\
  forall t, In (Some t) [worst mc; p25 mc; median mc; p75 mc; best mc] ->
    yieldValue t
      = calculateCompoundInterest Math_pow principal apy (inject_Z days) 365
        - principal /\
    totalValue t = principal + yieldValue t + priceReturn t /\
    roi t = ((totalValue t - principal) / principal) * 100.
Proof.
  intros Hrun.
  destruct (run_trials_spec principal apy days (Z.to_nat iterations) calls)
    as (results & Hres & _ & Hall & _).
  split.
  - unfold runMonteCarlo in Hrun. rewrite Hres in Hrun. by injection Hrun.
  - intros t Ht.
    destruct (runMonteCarlo_records _ _ _ _ _ _ _ _ Hrun Ht) as (results' & Hres' & Hin).
    rewrite Hres in Hres'. injection Hres' as <- _.
    rewrite Forall_forall in Hall. apply Hall. by apply list_elem_of_In.
Qed.

(** X18: with [days <= 0] no price moves: [runMonteCarlo] draws no random
    number and every record it returns has a price return of 0 and a total
    value equal to the compound interest value, so the five percentiles
    coincide. *)
Theorem runMonteCarlo_no_days (principal apy : Q) (days iterations : Z)
    (calls : nat) (mc : MonteCarlo) (calls' : nat) :
  (days <= 0)%Z ->
  runMonteCarlo Math_pow Math_sqrt Math_random principal apy days iterations calls
    = Some (mc, calls') ->
  calls' = calls /\
  forall t, In (Some t) [worst mc; p25 mc; median mc; p75 mc; best mc] ->
    priceReturn t == 0 /\
    totalValue t
      == calculateCompoundInterest Math_pow principal apy (inject_Z days) 365.
Proof.
  intros Hd Hrun.
  destruct (run_trials_spec principal apy days (Z.to_nat iterations) calls)
    as (results & Hres & _ & Hall & Hall0).
  split.
  - unfold runMonteCarlo in Hrun. rewrite Hres in Hrun. injection Hrun as _ <-.
    replace (Z.to_nat days) with 0%nat by lia. lia.
  - intros t Ht.
    destruct (runMonteCarlo_records _ _ _ _ _ _ _ _ Hrun Ht) as (results' & Hres' & Hin).
    rewrite Hres in Hres'. injection Hres' as <- _.
    specialize (Hall0 Hd). rewrite Forall_forall in Hall, Hall0.
    apply list_elem_of_In in Hin.
    destruct (Hall t Hin) as (Hy & Htv & _). pose proof (Hall0 t Hin) as H0.
    split; [exact H0|]. rewrite Htv, Hy, H0. ring.
Qed.

Lemma main_monteCarlo_fails_iff_aux (principal apy : Q) (days simulations : Z)
    (calls : nat) :
  ((simulations <= 0)%Z ->
   exists calls',
     runMonteCarlo Math_pow Math_sqrt Math_random principal apy days simulations calls
       = Some ({| worst := None; p25 := None; median := None; p75 := None;
                  best := None |}, calls')) /\
  ((simulations <= 0)%Z ->
   main_monteCarlo Math_pow Math_sqrt Math_random principal apy days simulations calls
     = None) /\
  (main_monteCarlo Math_pow Math_sqrt Math_random principal apy days simulations calls
     = None -> (simulations <= 0)%Z).
Proof.
  assert (Hle : (simulations <= 0)%Z ->
    exists calls',
      runMonteCarlo Math_pow Math_sqrt Math_random principal apy days simulations calls
        = Some ({| worst := None; p25 := None; median := None; p75 := None;
                   best := None |}, calls')).
  { intros Hs. unfold runMonteCarlo.
    replace (Z.to_nat simulations) with 0%nat by lia. simpl.
    rewrite !array_get_nil. eauto. }
  split; [exact Hle|]. split.
  - intros Hs. destruct (Hle Hs) as [calls' Hrun].
    unfold main_monteCarlo. by rewrite Hrun.
  - intros Hnone. destruct (Z_le_gt_dec simulations 0) as [|Hpos]; [done|].
    exfalso. unfold main_monteCarlo, runMonteCarlo in Hnone.
    destruct (run_trials_total Math_pow Math_sqrt Math_random principal apy days
                (Z.to_nat simulations) calls) as (results & calls' & Hres & Hlen).
    rewrite Hres in Hnone. cbn [worst p25 median p75 best] in Hnone.
    assert (Hslen : length (array_sort by_totalValue results) = Z.to_nat simulations)
      by (by rewrite array_sort_length).
    assert (Hn : (1 <= simulations)%Z) by lia.
    destruct (rank_lookup_defined _ simulations 5 100 Hslen Hn) as [w Hw]; [lia|].
    destruct (rank_lookup_defined _ simulations 25 100 Hslen Hn) as [q1 Hq1]; [lia|].
    destruct (rank_lookup_defined _ simulations 5 10 Hslen Hn) as [m Hm]; [lia|].
    destruct (rank_lookup_defined _ simulations 75 100 Hslen Hn) as [q3 Hq3]; [lia|].
    destruct (rank_lookup_defined _ simulations 95 100 Hslen Hn) as [b Hb]; [lia|].
    rewrite Hw, Hq1, Hm, Hq3, Hb in Hnone. discriminate.
Qed.

(** X19: without a single trial ([iterations <= 0]) the five records of
    [runMonteCarlo] are all undefined, and the Monte Carlo part of [main]
    then fails on its first access; it fails in no other case. *)
Theorem main_monteCarlo_fails_iff (principal apy : Q) (days simulations : Z)
    (calls : nat) :
  ((simulations <= 0)%Z ->
   exists calls',
     runMonteCarlo Math_pow Math_sqrt Math_random principal apy days simulations calls
       = Some ({| worst := None; p25 := None; median := None; p75 := None;
                  best := None |}, calls')) /\
  (main_monteCarlo Math_pow Math_sqrt Math_random principal apy days simulations calls
     = None <-> (simulations <= 0)%Z).
Proof.
  destruct (main_monteCarlo_fails_iff_aux principal apy days simulations calls)
    as (H1 & H2 & H3).
  split; [exact H1|]. split; [exact H3|exact H2].
Qed.

(** X20: when the Monte Carlo part of [main] succeeds, the upside potential
    it prints is the roi of the best record and the downside risk is the roi
    of the worst record with its sign changed; the total value of the worst
    record is at most that of the best, so for a positive principal the
    upside potential is at least the negated downside risk. *)
Theorem main_monteCarlo_risk (principal apy : Q) (days simulations : Z)
    (calls : nat) (mc : MonteCarlo) (risk : RiskMetrics) (calls' : nat) :
  main_monteCarlo Math_pow Math_sqrt Math_random principal apy days simulations calls
    = Some (mc, risk, calls') ->
  exists w b,
    worst mc = Some w /\ best mc = Some b /\
    upsidePotential risk = roi b /\
    downsideRisk risk == - roi w /\
    totalValue w <= totalValue b /\
    (0 < principal -> - downsideRisk risk <= upsidePotential risk).
Proof.
  intros Hmain.
  assert (Hpos : (1 <= simulations)%Z).
  { destruct (Z_le_gt_dec simulations 0) as [Hle|]; [|lia].
    apply (proj1 (proj2 (main_monteCarlo_fails_iff_aux principal apy days
                           simulations calls))) in Hle.
    congruence. }
  unfold main_monteCarlo in Hmain.
  destruct (runMonteCarlo _ _ _ _ _ _ _ _) as [[mc0 c0]|] eqn:Hrun; [|discriminate].
  destruct (worst mc0) as [w|] eqn:Hw; [|discriminate].
  destruct (p25 mc0) as [q1|]; [|discriminate].
  destruct (median mc0) as [m|]; [|discriminate].
  destruct (p75 mc0) as [q3|]; [|discriminate].
  destruct (best mc0) as [b|] eqn:Hb; [|discriminate].
  injection Hmain as <- <- <-. exists w, b.
  destruct (run_trials_spec principal apy days (Z.to_nat simulations) calls)
    as (results & Hres & Hlen & Hall & _).
  assert (Hin : forall t, In (Some t) [worst mc0; p25 mc0; median mc0; p75 mc0; best mc0] ->
                          roi t = ((totalValue t - principal) / principal) * 100).
  { intros t Ht.
    destruct (runMonteCarlo_records _ _ _ _ _ _ _ _ Hrun Ht) as (results' & Hres' & Hi).
    rewrite Hres in Hres'. injection Hres' as <- _.
    rewrite Forall_forall in Hall. apply list_elem_of_In in Hi.
    by destruct (Hall t Hi) as (_ & _ & Hr). }
  assert (Hrw : roi w = ((totalValue w - principal) / principal) * 100)
    by (apply Hin; rewrite Hw; by left).
  assert (Hrb : roi b = ((totalValue b - principal) / principal) * 100)
    by (apply Hin; rewrite Hb; do 4 right; by left).
  assert (Hord : totalValue w <= totalValue b).
  { unfold runMonteCarlo in Hrun. rewrite Hres in Hrun. injection Hrun as <- _.
    cbn [worst best] in Hw, Hb.
    rewrite rank_index_div in Hw, Hb.
    rewrite array_get_lookup in Hw by (Z.div_mod_to_equations; lia).
    rewrite array_get_lookup in Hb by (Z.div_mod_to_equations; lia).
    eapply (sorted_totalValue_lookup (array_sort by_totalValue results));
      [apply sort_by_totalValue_sorted| |exact Hw|exact Hb].
    apply Z2Nat.inj_le; Z.div_mod_to_equations; lia. }
  cbn [upsidePotential downsideRisk].
  split; [exact Hw|]. split; [exact Hb|]. split; [by rewrite Hrb|].
  split; [rewrite Hrw; unfold Qdiv; ring|]. split; [exact Hord|].
  intros Hp.
  assert ((totalValue w - principal) / principal
          <= (totalValue b - principal) / principal).
  { apply Qle_shift_div_l; [exact Hp|].
    assert ((totalValue w - principal) / principal * principal
            == totalValue w - principal) as -> by (field; lra).
    lra. }
  assert ((principal - totalValue w) / principal
          == - ((totalValue w - principal) / principal)) as ->
    by (unfold Qdiv; ring).
  lra.
Qed.
End TrialFacts.


Lemma runMonteCarlo_trial_records_witness :
  exists mc calls',
    runMonteCarlo pow_model sqrt_model random_model 1000 14.5 2 5 0 = Some (mc, calls') /\
    calls' = (0 + Z.to_nat 5 * Z.to_nat 2)%nat.
Proof.
  destruct (runMonteCarlo pow_model sqrt_model random_model 1000 14.5 2 5 0)
    as [[mc calls']|] eqn:E.
  - exists mc, calls'. split; [reflexivity|].
    exact (proj1 (runMonteCarlo_trial_records pow_model sqrt_model random_model
                    1000 14.5 2 5 0 mc calls' E)).
  - exfalso.
    destruct (run_trials_total pow_model sqrt_model random_model 1000 14.5 2
                (Z.to_nat 5) 0) as (results & calls' & Hres & _).
    unfold runMonteCarlo in E. rewrite Hres in E. discriminate E.
Defined.

Lemma runMonteCarlo_no_days_witness :
  exists mc calls',
    runMonteCarlo pow_model sqrt_model random_model 1000 14.5 (-3) 5 7
      = Some (mc, calls') /\
    calls' = 7%nat.
Proof.
  destruct (runMonteCarlo pow_model sqrt_model random_model 1000 14.5 (-3) 5 7)
    as [[mc calls']|] eqn:E.
  - exists mc, calls'. split; [reflexivity|].
    apply (runMonteCarlo_no_days pow_model sqrt_model random_model
             1000 14.5 (-3) 5 7 mc calls'); [lia|exact E].
  - exfalso.
    destruct (run_trials_total pow_model sqrt_model random_model 1000 14.5 (-3)
                (Z.to_nat 5) 7) as (results & calls' & Hres & _).
    unfold runMonteCarlo in E. rewrite Hres in E. discriminate E.
Defined.

Lemma main_monteCarlo_fails_iff_witness :
  main_monteCarlo pow_model sqrt_model random_model 1000 14.5 365 0 0 = None.
Proof.
  apply (proj2 (main_monteCarlo_fails_iff pow_model sqrt_model random_model
                  1000 14.5 365 0 0)).
  lia.
Defined.

Lemma main_monteCarlo_risk_witness :
  exists mc risk calls' w b,
    main_monteCarlo pow_model sqrt_model random_model 1000 14.5 2 5 0
      = Some (mc, risk, calls') /\
    worst mc = Some w /\ best mc = Some b /\
    upsidePotential risk = roi b /\ totalValue w <= totalValue b.
Proof.
  destruct (main_monteCarlo pow_model sqrt_model random_model 1000 14.5 2 5 0)
    as [[[mc risk] calls']|] eqn:E.
  - destruct (main_monteCarlo_risk pow_model sqrt_model random_model
                1000 14.5 2 5 0 mc risk calls' E)
      as (w & b & Hw & Hb & Hup & _ & Hord & _).
    exists mc, risk, calls', w, b.
    split; [reflexivity|]. split; [exact Hw|]. split; [exact Hb|].
    split; [exact Hup|exact Hord].
  - exfalso.
    apply (proj2 (proj2 (main_monteCarlo_fails_iff_aux pow_model sqrt_model
                           random_model 1000 14.5 2 5 0))) in E.
    lia.
Defined.

(** ** JLP position simulator: compound interest and the monthly breakdown *)

Lemma Math_ceil_div30 (d : Z) :
  Math_ceil (inject_Z d / 30) = (- ((- d) / 30))%Z.
Proof.
  unfold Math_ceil, Qceiling, Qfloor, Qdiv, Qmult, Qinv, Qopp, inject_Z. simpl.
  rewrite Z.mul_1_r. reflexivity.
Qed.

Lemma pow_model_integer (x y : Q) (n : Z) : y == inject_Z n -> pow_model x y == x ^ n.
Proof. intros E. unfold pow_model. by rewrite E, Qfloor_Z. Qed.

Section ProjectionFacts.
Variable Math_pow : Q -> Q -> Q.

Lemma monthly_loop_months (principal apy : Q) (days : Z) (fuel : nat) (month : Z) :
  (1 <= month)%Z -> (13 - month <= Z.of_nat fuel)%Z ->
  map (fun row => fst (fst row)) (monthly_loop Math_pow principal apy days fuel month)
    = seqZ month (Z.min 12 (days / 30) - month + 1).
Proof.
  revert month. induction fuel as [|fuel IH]; intros month Hm Hfuel.
  - simpl. rewrite seqZ_nil; [done|lia].
  - cbn [monthly_loop]. rewrite Math_ceil_div30.
    destruct (month <=? Z.min 12 (- (- days / 30)))%Z eqn:E1.
    + apply Z.leb_le in E1.
      destruct (days <? month * 30)%Z eqn:E2.
      * apply Z.ltb_lt in E2. simpl. rewrite seqZ_nil; [done|].
        Z.div_mod_to_equations. lia.
      * apply Z.ltb_ge in E2. cbn [map fst].
        rewrite seqZ_cons by (Z.div_mod_to_equations; lia).
        f_equal. rewrite IH by lia. f_equal; lia.
    + apply Z.leb_gt in E1. simpl. rewrite seqZ_nil; [done|].
      Z.div_mod_to_equations. lia.
Qed.

Lemma monthly_loop_rows (principal apy : Q) (days : Z) (fuel : nat) (month : Z) :
  Forall (fun row =>
            (month <= fst (fst row))%Z /\
            (fst (fst row) * 30 <= days)%Z /\
            snd (fst row)
              = calculateCompoundInterest Math_pow principal apy
                  (inject_Z (fst (fst row) * 30)) 365 /\
            snd row = snd (fst row) - principal)
    (monthly_loop Math_pow principal apy days fuel month).
Proof.
  revert month. induction fuel as [|fuel IH]; intros month; [constructor|].
  cbn [monthly_loop].
  destruct (month <=? _)%Z; [|constructor].
  destruct (days <? month * 30)%Z eqn:E2; [constructor|].
  apply Z.ltb_ge in E2. constructor.
  - simpl. repeat split; lia.
  - eapply Forall_impl; [apply IH|]. simpl. intros row (H1 & H2 & H3 & H4).
    repeat split; try done. lia.
Qed.

(** X21: the monthly breakdown of [main] lists the months 1, 2, ... up to the
    smaller of 12 and the number of whole 30-day months in [days], and
    nothing when [days < 30]; the line of month [m] carries the compound
    interest value after [30 * m] days and that value minus the principal. *)
Theorem monthlyProjection_months (principal apy : Q) (days : Z) :
  map (fun row => fst (fst row)) (monthlyProjection Math_pow principal apy days)
    = seqZ 1 (Z.min 12 (days / 30)) /\
  length (monthlyProjection Math_pow principal apy days)
    = Z.to_nat (Z.min 12 (days / 30)) /\
  forall month value profit,
    In (month, value, profit) (monthlyProjection Math_pow principal apy days) ->
    (month * 30 <= days)%Z /\
    value = calculateCompoundInterest Math_pow principal apy
              (inject_Z (month * 30)) 365 /\
    profit = value - principal.
Proof.
  assert (Hm : map (fun row => fst (fst row))
                 (monthlyProjection Math_pow principal apy days)
               = seqZ 1 (Z.min 12 (days / 30))).
  { unfold monthlyProjection. rewrite monthly_loop_months by lia. f_equal. lia. }
  split; [exact Hm|]. split.
  - apply (f_equal length) in Hm. by rewrite length_map, length_seqZ in Hm.
  - intros month value profit Hin.
    pose proof (monthly_loop_rows principal apy days 12 1) as Hrows.
    rewrite Forall_forall in Hrows.
    apply list_elem_of_In in Hin.
    destruct (Hrows _ Hin) as (_ & H2 & H3 & H4). simpl in *. by repeat split.
Qed.

(** [Math.pow] with an integer exponent is the integer power. *)
Hypothesis Math_pow_integer :
  forall x y (n : Z), y == inject_Z n -> Math_pow x y == x ^ n.

(** X22: with daily compounding (the default frequency 365) and a whole number
    of days, [calculateCompoundInterest] is principal * (1 + apy/36500)^days;
    compounding the result of [d1] days for [d2] more days is compounding the
    principal for [d1 + d2] days; and with a non-negative principal and APY
    the value never falls below the principal. *)
Theorem calculateCompoundInterest_daily (principal apy : Q) (d1 d2 : Z) :
  calculateCompoundInterest Math_pow principal apy (inject_Z d1) 365
    == principal * (1 + apy / 36500) ^ d1 /\
  ((0 <= d1)%Z -> (0 <= d2)%Z ->
   calculateCompoundInterest Math_pow
     (calculateCompoundInterest Math_pow principal apy (inject_Z d1) 365)
     apy (inject_Z d2) 365
   == calculateCompoundInterest Math_pow principal apy (inject_Z (d1 + d2)) 365) /\
  ((0 <= d1)%Z -> 0 <= principal -> 0 <= apy ->
   principal <= calculateCompoundInterest Math_pow principal apy (inject_Z d1) 365).
Proof.
  assert (Hform : forall P d,
            calculateCompoundInterest Math_pow P apy (inject_Z d) 365
            == P * (1 + apy / 36500) ^ d).
  { intros P d. unfold calculateCompoundInterest.
    rewrite (Math_pow_integer _ _ d) by (field; discriminate).
    assert (1 + apy / 100 / 365 == 1 + apy / 36500) as -> by (field; discriminate).
    reflexivity. }
  split; [apply Hform|]. split.
  - intros H1 H2. rewrite !Hform.
    destruct (Z.eq_dec (d1 + d2)%Z 0%Z) as [E|E].
    + assert (d1 = 0%Z) as -> by lia. assert (d2 = 0%Z) as -> by lia.
      simpl. ring.
    + rewrite (Qpower_plus' _ d1 d2 E). ring.
  - intros Hd HP Ha. rewrite Hform.
    assert (1 <= 1 + apy / 36500) as Hbase.
    { assert (0 <= apy / 36500) by (apply Qle_shift_div_l; [reflexivity|lra]). lra. }
    pose proof (Qpower_1_le _ d1 Hbase Hd) as Hpow.
    pose proof (Qmult_le_compat_r _ _ principal Hpow HP) as Hmul.
    rewrite Qmult_1_l, Qmult_comm in Hmul. exact Hmul.
Qed.
End ProjectionFacts.

Lemma calculateCompoundInterest_daily_witness :
  1000 <= calculateCompoundInterest pow_model 1000 14.5 (inject_Z 30) 365.
Proof.
  apply (proj2 (proj2 (calculateCompoundInterest_daily pow_model pow_model_integer
                         1000 14.5 30 0))).
  - lia.
  - discriminate.
  - discriminate.
Defined.

(** ** Position tracker: the registry and the portfolio *)

Lemma TRACKED_TOKENS_keys (tokenKey : string) :
  is_Some (TRACKED_TOKENS !! tokenKey) <->
  tokenKey = "SOL" \/ tokenKey = "USDC" \/ tokenKey = "JLP" \/ tokenKey = "mSOL" \/
  tokenKey = "jitoSOL" \/ tokenKey = "INF".
Proof.
  unfold TRACKED_TOKENS. rewrite !lookup_insert_is_Some', lookup_singleton_is_Some.
  split.
  - intros [|[|[|[|[|]]]]]; auto 10.
  - intros [|[|[|[|[|]]]]]; auto 10.
Qed.

Lemma lookup_set_property {A : Type} (obj : gmap string A) (key : string) (value : A) :
  (key <> "__proto__" \/ is_Some (obj !! key) ->
   set_property obj key value !! key = Some value) /\
  (key = "__proto__" -> obj !! key = None -> set_property obj key value = obj) /\
  (forall other, other <> key -> set_property obj key value !! other = obj !! other).
Proof.
  unfold set_property. destruct (obj !! key) as [old|] eqn:E.
  - split; [|split].
    + intros _. apply lookup_insert_eq.
    + discriminate.
    + intros other Hne. by apply lookup_insert_ne.
  - destruct (String.eqb key "__proto__") eqn:Ek.
    + apply String.eqb_eq in Ek. split; [|split].
      * intros [Hne|[? [=]]]. contradiction.
      * done.
      * done.
    + apply String.eqb_neq in Ek. split; [|split].
      * intros _. apply lookup_insert_eq.
      * contradiction.
      * intros other Hne. by apply lookup_insert_ne.
Qed.

Lemma delete_set_property {A : Type} (obj : gmap string A) (key : string) (value : A) :
  obj !! key = None -> delete key (set_property obj key value) = obj.
Proof.
  intros E. unfold set_property. rewrite E.
  destruct (String.eqb key "__proto__").
  - by apply delete_id.
  - rewrite delete_insert_eq. by apply delete_id.
Qed.

(** X23: [trackPosition] overwrites by name.  A token key that the table
    neither holds nor inherits from [Object.prototype] returns nothing and
    leaves the file as it is; an inherited key such as toString passes the
    guard, and a position without a numeric balance and value is returned and
    stored.  For a token of the table the position returned has the value
    balance / 10^decimals * price (hence 0 when the balance or the price
    request failed); it is stored under its name whatever was stored there
    before, except that under the name __proto__, when the file holds no such
    entry, nothing is stored; every other name is left untouched. *)
Theorem trackPosition_upsert (balance price : Q) (now : Z)
    (name tokenKey type : string) (apy : Q) (notes : string)
    (file : option (gmap string FileEntry)) :
  (TRACKED_TOKENS !! tokenKey = None -> inherited_key tokenKey = false ->
   trackPosition balance price now name tokenKey type apy notes file = (None, file)) /\
  (TRACKED_TOKENS !! tokenKey = None -> inherited_key tokenKey = true ->
   exists position positions',
     trackPosition balance price now name tokenKey type apy notes file
       = (Some (NonNumeric position), Some positions') /\
     (name <> "__proto__" \/ is_Some (loadPositions file !! name) ->
      positions' !! name = Some (NonNumericEntry position now)) /\
     (forall other, other <> name ->
        positions' !! other = loadPositions file !! other)) /\
  (forall token, TRACKED_TOKENS !! tokenKey = Some token ->
   exists position positions',
     trackPosition balance price now name tokenKey type apy notes file
       = (Some (Numeric position), Some positions') /\
     p_value position == balance * price / 10 ^ decimals token /\
     (balance == 0 \/ price == 0 -> p_value position == 0) /\
     p_name position = name /\ p_apy position = apy /\
     (name <> "__proto__" \/ is_Some (loadPositions file !! name) ->
      positions' !! name
        = Some (NumericEntry {| sp_position := position; sp_lastUpdated := now |})) /\
     (name = "__proto__" -> loadPositions file !! name = None ->
      positions' = loadPositions file) /\
     (forall other, other <> name ->
        positions' !! other = loadPositions file !! other)).
Proof.
  unfold trackPosition, get_property. split; [|split].
  - by intros -> ->.
  - intros -> ->. eexists _, _. split; [reflexivity|].
    destruct (lookup_set_property (loadPositions file) name
                (NonNumericEntry
                   {| nn_name := name; nn_token := tokenKey; nn_type := type;
                      nn_price := price; nn_apy := apy; nn_notes := notes |} now))
      as (H1 & _ & H3).
    split; [exact H1|exact H3].
  - intros token ->. eexists _, _. split; [reflexivity|]. cbn [p_value p_name p_apy].
    match goal with
    | |- context [set_property ?m ?k ?v] =>
        destruct (lookup_set_property m k v) as (H1 & H2 & H3)
    end.
    repeat match goal with |- _ /\ _ => split end; try reflexivity.
    + unfold Qdiv. ring.
    + intros [E|E]; rewrite E; unfold Qdiv; ring.
    + exact H1.
    + exact H2.
    + exact H3.
Qed.

Lemma trackPosition_upsert_witness :
  (exists position positions',
     trackPosition 2500000 4 1700000000000 "main" "JLP" "lp" 14.5 "" None
       = (Some (Numeric position), Some positions') /\
     p_value position == 2500000 * 4 / 10 ^ 6) /\
  (exists position positions',
     trackPosition 2500000 4 1700000000000 "main" "toString" "lp" 14.5 "" None
       = (Some (NonNumeric position), Some positions') /\
     positions' !! "main" = Some (NonNumericEntry position 1700000000000)) /\
  trackPosition 2500000 4 1700000000000 "main" "DOGE" "lp" 14.5 "" None = (None, None).
Proof.
  split; [|split].
  - destruct (proj2 (proj2 (trackPosition_upsert 2500000 4 1700000000000 "main" "JLP"
                              "lp" 14.5 "" None))
                {| mint := "27G8MtK7VtTcCHkpASjSDdkWWYfoqT6ggEuKidVJidD4";
                   decimals := 6; priceId := "JLP" |})
      as (position & positions' & H1 & H2 & _).
    + by vm_compute.
    + by exists position, positions'.
  - destruct (proj1 (proj2 (trackPosition_upsert 2500000 4 1700000000000 "main"
                              "toString" "lp" 14.5 "" None)))
      as (position & positions' & H1 & H2 & _).
    + by vm_compute.
    + by vm_compute.
    + exists position, positions'. split; [exact H1|]. apply H2. left. discriminate.
  - apply (proj1 (trackPosition_upsert 2500000 4 1700000000000 "main" "DOGE"
                    "lp" 14.5 "" None)).
    + by vm_compute.
    + by vm_compute.
Defined.

(** X24: [removePosition] deletes by name.  A name is reported removed when the
    file holds it and also when it is a name every object inherits, such as
    toString; the file is then written, without the name, every other name
    being untouched.  Any other name is reported not found and the file is
    not written.  Removing twice leaves the registry of removing once, and
    removing a position right after tracking it under a name that was free
    gives back the registry as it was. *)
Theorem removePosition_delete (name : string)
    (file : option (gmap string FileEntry)) :
  (fst (removePosition name file) = true <->
   is_Some (loadPositions file !! name) \/ inherited_key name = true) /\
  (fst (removePosition name file) = false -> snd (removePosition name file) = file) /\
  (fst (removePosition name file) = true ->
   snd (removePosition name file) = Some (delete name (loadPositions file))) /\
  loadPositions (snd (removePosition name file)) !! name = None /\
  (forall other, other <> name ->
     loadPositions (snd (removePosition name file)) !! other
       = loadPositions file !! other) /\
  loadPositions (snd (removePosition name (snd (removePosition name file))))
    = loadPositions (snd (removePosition name file)) /\
  (forall balance price now tokenKey type apy notes,
     loadPositions file !! name = None ->
     loadPositions
       (snd (removePosition name
               (snd (trackPosition balance price now name tokenKey type apy notes
                       file))))
     = loadPositions file).
Proof.
  assert (Hrem : forall f,
            loadPositions (snd (removePosition name f))
            = delete name (loadPositions f)).
  { intros f. unfold removePosition, get_property.
    destruct (loadPositions f !! name) as [old|] eqn:E; [done|].
    destruct (inherited_key name); [done|]. simpl. by rewrite delete_id. }
  repeat match goal with |- _ /\ _ => split end.
  - unfold removePosition, get_property.
    destruct (loadPositions file !! name) as [old|] eqn:E; simpl.
    + split; [intros _; left; by eexists|done].
    + destruct (inherited_key name); simpl.
      * split; [by right|done].
      * split; [discriminate|]. by intros [[? [=]]|[=]].
  - unfold removePosition, get_property.
    destruct (loadPositions file !! name) as [old|]; [discriminate|].
    by destruct (inherited_key name).
  - unfold removePosition, get_property.
    destruct (loadPositions file !! name) as [old|]; [done|].
    by destruct (inherited_key name).
  - rewrite Hrem. apply lookup_delete_eq.
  - intros other Hne. rewrite Hrem. by apply lookup_delete_ne.
  - rewrite !Hrem. apply delete_id, lookup_delete_eq.
  - intros balance price now tokenKey type apy notes E. rewrite Hrem.
    unfold trackPosition.
    destruct (get_property TRACKED_TOKENS tokenKey) as [token| |]; cbn [snd].
    + simpl. by apply delete_set_property.
    + simpl. by apply delete_set_property.
    + by apply delete_id.
Qed.

Lemma removePosition_delete_witness :
  loadPositions
    (snd (removePosition "main"
            (snd (trackPosition 2500000 4 1700000000000 "main" "JLP" "lp" 14.5 ""
                    None))))
  = loadPositions None /\
  snd (removePosition "toString" None) = Some (delete "toString" (loadPositions None)) /\
  snd (removePosition "main" None) = None.
Proof.
  destruct (removePosition_delete "main" None) as (_ & Hnot & _ & _ & _ & _ & Hround).
  destruct (removePosition_delete "toString" None) as (_ & _ & Hinh & _).
  split; [|split].
  - apply Hround. reflexivity.
  - apply Hinh. reflexivity.
  - apply Hnot. reflexivity.
Defined.

Lemma showPortfolio_nonempty (entries : list (string * Position)) :
  entries <> [] ->
  showPortfolio entries =
    Totals (reduce_sum (fun e => p_value (snd e)) entries)
           (reduce_sum (fun e => p_value (snd e) * (p_apy (snd e) / 100) / 365) entries)
           (if Qltb 0 (reduce_sum (fun e => p_value (snd e)) entries)
            then Some (reduce_sum (fun e => p_value (snd e) * (p_apy (snd e) / 100) / 365)
                         entries * 365
                       / reduce_sum (fun e => p_value (snd e)) entries * 100)
            else None).
Proof.
  intros Hne. unfold showPortfolio. destruct entries as [|e entries]; [done|].
  by rewrite portfolio_fold.
Qed.

Lemma Qltb_proper (a b c d : Q) : a == c -> b == d -> Qltb a b = Qltb c d.
Proof.
  intros E1 E2. unfold Qltb. by rewrite E1, E2.
Qed.

(** X25: the totals of [showPortfolio] do not depend on the order of the
    entries: for the same positions in another order the total value, the
    total daily yield and the blended APY agree, and a blended APY is shown
    for the one order exactly when it is shown for the other. *)
Theorem showPortfolio_order_independent (entries entries' : list (string * Position)) :
  entries ≡ₚ entries' ->
  report_agrees (showPortfolio entries) (showPortfolio entries').
Proof.
  intros Hperm. destruct entries as [|e entries].
  - apply Permutation_nil in Hperm. by subst.
  - destruct entries' as [|e' entries'].
    { symmetry in Hperm. by apply Permutation_nil in Hperm. }
    rewrite !showPortfolio_nonempty by done.
    set (f := fun e : string * Position => p_value (snd e)).
    set (g := fun e : string * Position => p_value (snd e) * (p_apy (snd e) / 100) / 365).
    pose proof (reduce_sum_perm f _ _ Hperm) as Hv.
    pose proof (reduce_sum_perm g _ _ Hperm) as Hy.
    cbn [report_agrees]. split; [exact Hv|]. split; [exact Hy|].
    rewrite (Qltb_proper 0 (reduce_sum f (e :: entries)) 0 (reduce_sum f (e' :: entries')))
      by (reflexivity || exact Hv).
    destruct (Qltb 0 (reduce_sum f (e' :: entries'))); [|done].
    by rewrite Hv, Hy.
Qed.

Lemma showPortfolio_order_independent_witness :
  report_agrees (showPortfolio two_positions) (showPortfolio (rev two_positions)).
Proof.
  apply (showPortfolio_order_independent two_positions (rev two_positions)).
  apply Permutation_rev.
Defined.

Lemma weighted_sum_bounds (entries : list (string * Position)) (lo hi : Q) :
  Forall (fun e => 0 <= p_value (snd e) /\ lo <= p_apy (snd e) <= hi) entries ->
  lo * reduce_sum (fun e => p_value (snd e)) entries
    <= reduce_sum (fun e => p_value (snd e) * (p_apy (snd e) / 100) / 365) entries
       * 36500 /\
  reduce_sum (fun e => p_value (snd e) * (p_apy (snd e) / 100) / 365) entries * 36500
    <= hi * reduce_sum (fun e => p_value (snd e)) entries.
Proof.
  induction entries as [|e entries IH] using rev_ind; intros H.
  - unfold reduce_sum. simpl. split; lra.
  - apply Forall_app in H as [Hl He]. apply Forall_inv in He. simpl in He.
    destruct He as (Hv & Hlo & Hhi). destruct (IH Hl) as [IH1 IH2].
    rewrite !reduce_sum_snoc.
    assert (p_value (snd e) * (p_apy (snd e) / 100) / 365 * 36500
            == p_apy (snd e) * p_value (snd e)) as E by (field; discriminate).
    pose proof (Qmult_le_compat_r _ _ (p_value (snd e)) Hlo Hv) as H1.
    pose proof (Qmult_le_compat_r _ _ (p_value (snd e)) Hhi Hv) as H2.
    split.
    + rewrite Qmult_plus_distr_r, Qmult_plus_distr_l, E. lra.
    + rewrite Qmult_plus_distr_r, Qmult_plus_distr_l, E. lra.
Qed.

(** X26: the blended APY [showPortfolio] reports is a weighted average: when no
    position has a negative value and every APY lies between [lo] and [hi],
    the blended APY lies between [lo] and [hi] too; in particular it is the
    common APY when all positions have the same one. *)
Theorem showPortfolio_blended_bounds (entries : list (string * Position))
    (lo hi : Q) (totalValue totalDailyYield blendedApy : Q) :
  Forall (fun e => 0 <= p_value (snd e) /\ lo <= p_apy (snd e) <= hi) entries ->
  showPortfolio entries = Totals totalValue totalDailyYield (Some blendedApy) ->
  lo <= blendedApy <= hi.
Proof.
  intros Hall Hshow.
  destruct entries as [|e entries]; [discriminate|].
  rewrite showPortfolio_nonempty in Hshow by done.
  destruct (weighted_sum_bounds (e :: entries) lo hi Hall) as [H1 H2].
  set (tv := reduce_sum _ (e :: entries)) in *.
  set (ty := reduce_sum (fun e => p_value (snd e) * (p_apy (snd e) / 100) / 365)
               (e :: entries)) in *.
  destruct (Qltb 0 tv) eqn:E; [|discriminate].
  apply Qltb_lt in E. injection Hshow as _ _ <-.
  assert (ty * 365 / tv * 100 == ty * 36500 / tv) as -> by (field; lra).
  split.
  - apply Qle_shift_div_l; [exact E|exact H1].
  - apply Qle_shift_div_r; [exact E|exact H2].
Qed.

Lemma showPortfolio_blended_bounds_witness :
  exists totalValue totalDailyYield blendedApy,
    showPortfolio two_positions = Totals totalValue totalDailyYield (Some blendedApy) /\
    10 <= blendedApy <= 20.
Proof.
  eexists _, _, _. split; [reflexivity|].
  eapply (showPortfolio_blended_bounds two_positions 10 20); [|reflexivity].
  repeat constructor; discriminate.
Defined.

Lemma portfolio_entries_insert (positions : gmap string FileEntry)
    (name : string) (sp : StoredPosition) :
  portfolio_entries (Some (<[name := NumericEntry sp]> positions))
    ≡ₚ (name, sp_position sp) :: portfolio_entries (Some (delete name positions)).
Proof.
  unfold portfolio_entries. cbn [loadPositions].
  rewrite (omap_insert_Some numeric_position positions name (NumericEntry sp)
             (sp_position sp)) by reflexivity.
  rewrite omap_delete, <- insert_delete_eq.
  rewrite map_to_list_insert by apply lookup_delete_eq. reflexivity.
Qed.

Lemma portfolio_entries_delete (positions : gmap string FileEntry)
    (name : string) (old : Position) :
  positions !! name ≫= numeric_position = Some old ->
  portfolio_entries (Some positions)
    ≡ₚ (name, old) :: portfolio_entries (Some (delete name positions)).
Proof.
  intros H. unfold portfolio_entries. cbn [loadPositions].
  assert (omap numeric_position positions !! name = Some old) as E
    by (by rewrite lookup_omap).
  rewrite <- (insert_id _ name old E) at 1.
  rewrite omap_delete, <- insert_delete_eq.
  rewrite map_to_list_insert by apply lookup_delete_eq. reflexivity.
Qed.

Lemma reduce_sum_cons {A : Type} (f : A -> Q) (x : A) (l : list A) :
  reduce_sum f (x :: l) == f x + reduce_sum f l.
Proof.
  rewrite (reduce_sum_perm f (x :: l) (l ++ [x])).
  - rewrite reduce_sum_snoc. ring.
  - apply Permutation_cons_append.
Qed.

Lemma showPortfolio_file_loaded (file : option (gmap string FileEntry)) :
  showPortfolio_file (Some (loadPositions file)) = showPortfolio_file file.
Proof. by destruct file. Qed.

(** X27: tracking a position and showing the portfolio, when the portfolio
    could be shown before.  After [trackPosition] has returned a position of
    a token of the table, stored under its name, the portfolio is not empty
    and its total value is the total value before, minus the value that was
    stored under the name (if any), plus the value of the new position; the
    total daily yield changes in the same way.  After a position of an
    inherited token key has been stored, [showPortfolio] raises an error.
    Under the name __proto__, when the file holds no such entry, nothing is
    stored and the portfolio shown is the one shown before; and when the
    token key is unknown the file is the one before. *)
Theorem trackPosition_then_portfolio (balance price : Q) (now : Z)
    (name tokenKey type : string) (apy : Q) (notes : string)
    (file : option (gmap string FileEntry)) (result : option TrackedPosition)
    (file' : option (gmap string FileEntry)) :
  trackPosition balance price now name tokenKey type apy notes file
    = (result, file') ->
  is_Some (showPortfolio_file file) ->
  (forall position, result = Some (Numeric position) ->
   name <> "__proto__" \/ is_Some (loadPositions file !! name) ->
   exists totalValue totalDailyYield blendedApy,
     showPortfolio_file file'
       = Some (Totals totalValue totalDailyYield blendedApy) /\
     totalValue + stored_value (loadPositions file) name
       == sum_of_values (portfolio_entries file) + p_value position /\
     totalDailyYield + stored_daily_yield (loadPositions file) name
       == sum_of_daily_yields (portfolio_entries file)
          + p_value position * p_apy position / 100 / 365) /\
  (forall position, result = Some (NonNumeric position) ->
   name <> "__proto__" \/ is_Some (loadPositions file !! name) ->
   showPortfolio_file file' = None) /\
  (is_Some result -> name = "__proto__" -> loadPositions file !! name = None ->
   showPortfolio_file file' = showPortfolio_file file) /\
  (result = None -> file' = file).
Proof.
  intros Htrack Hshown.
  assert (Hall : map_Forall (fun _ entry => is_Some (numeric_position entry))
                   (loadPositions file)).
  { unfold showPortfolio_file in Hshown.
    destruct (decide (map_Forall (fun _ entry => is_Some (numeric_position entry))
                        (loadPositions file))) as [H|H]; [exact H|].
    by destruct Hshown. }
  clear Hshown. unfold trackPosition in Htrack.
  repeat match goal with |- _ /\ _ => split end.
  - intros position0 -> Hname.
    destruct (get_property TRACKED_TOKENS tokenKey) as [token| |];
      [|discriminate|discriminate].
    injection Htrack as <- <-.
    set (position := {| p_name := name; p_token := tokenKey; p_type := type;
                        p_balance := balance / 10 ^ decimals token; p_price := price;
                        p_value := balance / 10 ^ decimals token * price;
                        p_apy := apy; p_notes := notes |}).
    set (sp := {| sp_position := position; sp_lastUpdated := now |}).
    assert (Hset : set_property (loadPositions file) name (NumericEntry sp)
                   = <[name := NumericEntry sp]> (loadPositions file)).
    { unfold set_property. destruct (loadPositions file !! name) eqn:E; [done|].
      destruct Hname as [Hne|[? [=]]]. apply String.eqb_neq in Hne. by rewrite Hne. }
    rewrite Hset. unfold savePositions, showPortfolio_file. cbn [loadPositions].
    destruct (decide (map_Forall (fun _ entry => is_Some (numeric_position entry))
                        (<[name := NumericEntry sp]> (loadPositions file))))
      as [_|Hno].
    2: { exfalso. apply Hno. apply map_Forall_insert_2; [by eexists|exact Hall]. }
    pose proof (portfolio_entries_insert (loadPositions file) name sp) as Hafter.
    assert (Hne : portfolio_entries (Some (<[name := NumericEntry sp]> (loadPositions file)))
                  <> []).
    { intros E. rewrite E in Hafter. by apply Permutation_nil in Hafter. }
    rewrite (showPortfolio_nonempty _ Hne). eexists _, _, _. split; [reflexivity|].
    set (f := fun e : string * Position => p_value (snd e)).
    set (g := fun e : string * Position => p_value (snd e) * (p_apy (snd e) / 100) / 365).
    set (g' := fun e : string * Position => p_value (snd e) * p_apy (snd e) / 100 / 365).
    assert (Hgg : forall l, reduce_sum g l == reduce_sum g' l).
    { intros l. apply reduce_sum_ext. intros x. unfold g, g'. field. }
    set (rest := portfolio_entries (Some (delete name (loadPositions file)))) in *.
    assert (Hbefore : forall h : string * Position -> Q,
              reduce_sum h (portfolio_entries file)
              == match loadPositions file !! name ≫= numeric_position with
                 | Some old => h (name, old)
                 | None => 0
                 end + reduce_sum h rest).
    { intros h.
      destruct (loadPositions file !! name ≫= numeric_position) as [old|] eqn:E.
      - rewrite (reduce_sum_perm h _ _
                   (portfolio_entries_delete (loadPositions file) name old E)).
        unfold portfolio_entries at 1. cbn [loadPositions].
        fold (portfolio_entries (Some (loadPositions file))).
        apply reduce_sum_cons.
      - assert (loadPositions file !! name = None) as E'.
        { destruct (loadPositions file !! name) as [entry|] eqn:E'; [|done].
          apply Hall in E'. destruct E' as [p Hp]. simpl in E. congruence. }
        unfold rest. rewrite delete_id by done.
        unfold portfolio_entries. cbn [loadPositions]. ring. }
    unfold sum_of_values, sum_of_daily_yields, stored_value, stored_daily_yield.
    fold f g'. split.
    + rewrite (reduce_sum_perm f _ _ Hafter), reduce_sum_cons, (Hbefore f).
      unfold f at 1 3. cbn [snd sp_position].
      destruct (loadPositions file !! name ≫= numeric_position); simpl; ring.
    + rewrite Hgg, (reduce_sum_perm g' _ _ Hafter), reduce_sum_cons, (Hbefore g').
      unfold g' at 1 3. cbn [snd sp_position].
      destruct (loadPositions file !! name ≫= numeric_position); simpl; ring.
  - intros position0 -> Hname.
    destruct (get_property TRACKED_TOKENS tokenKey) as [token| |];
      [discriminate| |discriminate].
    injection Htrack as <- <-.
    match goal with
    | |- context [set_property ?m ?k ?v] =>
        destruct (lookup_set_property m k v) as (H1 & _ & _)
    end.
    specialize (H1 Hname). unfold savePositions, showPortfolio_file.
    cbn [loadPositions].
    match goal with
    | |- (if ?d then _ else _) = None => destruct d as [Hyes|]; [|done]
    end.
    apply Hyes in H1. by destruct H1.
  - intros Hres Hname Hfree.
    destruct (get_property TRACKED_TOKENS tokenKey) as [token| |].
    + injection Htrack as _ <-.
      match goal with
      | |- context [set_property ?m ?k ?v] =>
          destruct (lookup_set_property m k v) as (_ & H2 & _)
      end.
      rewrite (H2 Hname Hfree). apply showPortfolio_file_loaded.
    + injection Htrack as _ <-.
      match goal with
      | |- context [set_property ?m ?k ?v] =>
          destruct (lookup_set_property m k v) as (_ & H2 & _)
      end.
      rewrite (H2 Hname Hfree). apply showPortfolio_file_loaded.
    + injection Htrack as <- _. by destruct Hres.
  - intros ->.
    destruct (get_property TRACKED_TOKENS tokenKey) as [token| |];
      [discriminate|discriminate|]. by injection Htrack as <-.
Qed.

Lemma trackPosition_then_portfolio_witness :
  exists position file' totalValue totalDailyYield blendedApy,
    trackPosition 2500000 4 1700000000000 "main" "JLP" "lp" 14.5 "" None
      = (Some (Numeric position), file') /\
    showPortfolio_file file'
      = Some (Totals totalValue totalDailyYield blendedApy) /\
    totalValue + stored_value (loadPositions None) "main"
      == sum_of_values (portfolio_entries None) + p_value position.
Proof.
  destruct (trackPosition 2500000 4 1700000000000 "main" "JLP" "lp" 14.5 "" None)
    as [[[position|position]|] file'] eqn:E.
  - assert (is_Some (showPortfolio_file None)) as Hshown by (by eexists).
    destruct (proj1 (trackPosition_then_portfolio 2500000 4 1700000000000 "main"
                       "JLP" "lp" 14.5 "" None (Some (Numeric position)) file' E
                       Hshown) position eq_refl)
      as (tv & ty & b & H1 & H2 & _).
    + left. discriminate.
    + exists position, file', tv, ty, b.
      split; [reflexivity|]. split; [exact H1|exact H2].
  - exfalso. unfold trackPosition, get_property in E.
    destruct (TRACKED_TOKENS !! "JLP") eqn:L; [discriminate E|].
    vm_compute in L. discriminate L.
  - exfalso. unfold trackPosition, get_property in E.
    destruct (TRACKED_TOKENS !! "JLP") eqn:L; [discriminate E|].
    vm_compute in L. discriminate L.
Defined.
